(** * The ASGI adapter of Sanic ([sanic/asgi.py]) as a shallow embedding

    The file has two parts.  The first part holds the definitions: Python
    values ([bytes], [str], exceptions), the two codecs that [create] calls
    on header names and values, the [Lifespan] loop and the [ASGIApp]
    request adapter with its methods [create], [read], [__aiter__],
    [respond], [send] and [__call__].  The second part states and proves
    the properties of these definitions.

    Conventions.
    - A coroutine is a state-passing function.  An [await] on the receive
      channel completes when the queue of incoming messages (the "inbox")
      is not empty, and stays suspended otherwise ([Pending]).
    - Messages given to the send channel are appended to a list (the
      "outbox"), the oldest first.
    - Exceptions are the instances of Python's [Exception]: the adapter's
      own ones are the type [exn]; those raised by the framework, by
      listeners and by handlers are an abstract type [E]. *)

From Stdlib Require Import NArith ZArith Lia String Strings.Byte.
From stdpp Require Import base option list gmap strings.

Ltac Zify.zify_post_hook ::= Z.to_euclidean_division_equations.

Local Open Scope N_scope.

(** ** Python values *)

(** A [bytes] object. *)
Definition bytes : Type := list byte.

(** A [str] object: its code points.  Lone surrogates are allowed, as in
    Python. *)
Definition pystr : Type := list N.

(** The literal [b"..."]. *)
Definition b (s : string) : bytes := list_byte_of_string s.

(** Truth value of a sequence: [if x:] holds when [x] is not empty. *)
Definition truthy {A : Type} (l : list A) : bool :=
  match l with
  | [] => false
  | _ :: _ => true
  end.

(** The exceptions that the adapter itself raises. *)
Inductive exn : Type :=
| RuntimeError (msg : string)
| BadRequest (msg : string)
| ServerError (msg : string)
| TypeError
| UnicodeEncodeError.

(** How a coroutine step ends: with a value, with an exception, or
    suspended for ever on a receive channel that has nothing to deliver. *)
Inductive outcome (X A : Type) : Type :=
| Done (a : A)
| Raise (e : X)
| Pending.

Arguments Done {X A} a.
Arguments Raise {X A} e.
Arguments Pending {X A}.

(** ** Codecs *)

(** [key.decode("ASCII")]: strict, [None] stands for [UnicodeDecodeError]. *)
Fixpoint decode_ascii (bs : bytes) : option pystr :=
  match bs with
  | [] => Some []
  | c :: bs' =>
      if Byte.to_N c <? 128
      then match decode_ascii bs' with
           | Some s => Some (Byte.to_N c :: s)
           | None => None
           end
      else None
  end.

(** A continuation byte of UTF-8, [10xxxxxx]. *)
Definition is_cont (n : N) : bool := (128 <=? n) && (n <? 192).

(** The well-formed two, three and four byte sequences of UTF-8 (no
    overlong form, no surrogate, nothing above U+10FFFF). *)
Definition valid2 (n0 n1 : N) : bool :=
  (194 <=? n0) && (n0 <? 224) && is_cont n1.

Definition valid3 (n0 n1 n2 : N) : bool :=
  (224 <=? n0) && (n0 <? 240) && is_cont n1 && is_cont n2
  && (if n0 =? 224 then 160 <=? n1 else true)
  && (if n0 =? 237 then n1 <? 160 else true).

Definition valid4 (n0 n1 n2 n3 : N) : bool :=
  (240 <=? n0) && (n0 <? 245) && is_cont n1 && is_cont n2 && is_cont n3
  && (if n0 =? 240 then 144 <=? n1 else true)
  && (if n0 =? 244 then n1 <? 144 else true).

Definition cp2 (n0 n1 : N) : N := (n0 - 192) * 64 + (n1 - 128).

Definition cp3 (n0 n1 n2 : N) : N :=
  (n0 - 224) * 4096 + (n1 - 128) * 64 + (n2 - 128).

Definition cp4 (n0 n1 n2 n3 : N) : N :=
  (n0 - 240) * 262144 + (n1 - 128) * 4096 + (n2 - 128) * 64 + (n3 - 128).

(** The surrogate-escape error handler: an undecodable byte [n] (always
    above 127) becomes the lone surrogate U+DC00 + [n]. *)
Definition escape (n : N) : N := 56320 + n.

(** [value.decode(errors="surrogateescape")], with the default encoding
    UTF-8.  At each position the decoder takes a well-formed sequence when
    there is one; otherwise the handler escapes the byte and decoding
    resumes at the next byte.  (CPython hands the handler the longest
    prefix of a sequence that went wrong; its bytes after the first are
    continuation bytes, which are escaped one by one all the same.) *)
Fixpoint decode_surrogateescape (bs : bytes) : pystr :=
  match bs with
  | [] => []
  | c0 :: r0 =>
      let n0 := Byte.to_N c0 in
      if n0 <? 128 then n0 :: decode_surrogateescape r0
      else
        match r0 with
        | [] => escape n0 :: decode_surrogateescape r0
        | c1 :: r1 =>
            let n1 := Byte.to_N c1 in
            if valid2 n0 n1 then cp2 n0 n1 :: decode_surrogateescape r1
            else
              match r1 with
              | [] => escape n0 :: decode_surrogateescape r0
              | c2 :: r2 =>
                  let n2 := Byte.to_N c2 in
                  if valid3 n0 n1 n2
                  then cp3 n0 n1 n2 :: decode_surrogateescape r2
                  else
                    match r2 with
                    | [] => escape n0 :: decode_surrogateescape r0
                    | c3 :: r3 =>
                        let n3 := Byte.to_N c3 in
                        if valid4 n0 n1 n2 n3
                        then cp4 n0 n1 n2 n3 :: decode_surrogateescape r3
                        else escape n0 :: decode_surrogateescape r0
                    end
              end
        end
  end.

(** The byte with the given value, for values below 256. *)
Definition byte_of (n : N) : byte := default x00 (Byte.of_N n).

(** UTF-8 encoding of one code point; [None] stands for
    [UnicodeEncodeError].  With [surrogateescape] the escaped bytes come
    back as they were; every other surrogate is refused in both modes. *)
Definition encode_cp (surrogateescape : bool) (cp : N) : option bytes :=
  if cp <? 128 then Some [byte_of cp]
  else if cp <? 2048 then Some [byte_of (192 + cp / 64); byte_of (128 + cp mod 64)]
  else if (55296 <=? cp) && (cp <? 57344) then
    if surrogateescape && (56448 <=? cp) && (cp <? 56576)
    then Some [byte_of (cp - 56320)]
    else None
  else if cp <? 65536 then
    Some [byte_of (224 + cp / 4096); byte_of (128 + (cp / 64) mod 64);
          byte_of (128 + cp mod 64)]
  else if cp <? 1114112 then
    Some [byte_of (240 + cp / 262144); byte_of (128 + (cp / 4096) mod 64);
          byte_of (128 + (cp / 64) mod 64); byte_of (128 + cp mod 64)]
  else None.

Fixpoint encode_utf8 (surrogateescape : bool) (s : pystr) : option bytes :=
  match s with
  | [] => Some []
  | cp :: s' =>
      match encode_cp surrogateescape cp, encode_utf8 surrogateescape s' with
      | Some bs, Some bs' => Some (bs ++ bs')
      | _, _ => None
      end
  end.

(** [data.encode()]: UTF-8, strict. *)
Definition encode (s : pystr) : option bytes := encode_utf8 false s.

(** ** Coroutines over a state *)

(** A coroutine body that works on a state [S], may raise an [X] and
    returns an [A]. *)
Definition coro (S X A : Type) : Type := S -> S * outcome X A.

Definition bind {S X A B : Type} (m : coro S X A) (k : A -> coro S X B)
  : coro S X B :=
  fun s =>
    match m s with
    | (s', Done a) => k a s'
    | (s', Raise e) => (s', Raise e)
    | (s', Pending) => (s', Pending)
    end.

Notation "'await' x <- m ; k" := (bind m (fun x => k))
  (at level 10, x name, m at level 100, k at level 200, only parsing).

(** ** Lifespan *)

(** A lifespan message, received or sent: the ["type"] entry and, on the
    failure messages, the ["message"] entry. *)
Record LifespanMessage : Type := {
  lifespan_type : string;
  lifespan_message : option string;
}.

(** The state that the [Lifespan] object works on: the application (of an
    abstract type [X]), the messages given to [self.send], the exceptions
    given to [error_logger.exception] and the warnings issued. *)
Record Lifespan (E X : Type) : Type := {
  sanic_app : X;
  lifespan_sent : list LifespanMessage;
  error_log : list E;
  warnings : list string;
}.

Arguments sanic_app {E X} _.
Arguments lifespan_sent {E X} _.
Arguments error_log {E X} _.
Arguments warnings {E X} _.

Section LifespanLoop.
Context {E X : Type}.

(** [str(e)] *)
Variable str : E -> string.
(** [sanic_app._startup()] *)
Variable _startup : coro X E unit.
(** [sanic_app._server_event(concern, action)] *)
Variable _server_event : string -> string -> coro X E unit.
(** [isinstance(sanic_app.config.USE_UVLOOP, Default)] *)
Variable USE_UVLOOP_is_Default : X -> bool.

(** An awaited method of [self.sanic_app]. *)
Definition on_app (m : coro X E unit) : coro (Lifespan E X) E unit :=
  fun self =>
    let '(app, r) := m (sanic_app self) in
    ({| sanic_app := app; lifespan_sent := lifespan_sent self;
        error_log := error_log self; warnings := warnings self |}, r).

(** [await self.send(message)] *)
Definition lifespan_send (message : LifespanMessage)
  : coro (Lifespan E X) E unit :=
  fun self =>
    ({| sanic_app := sanic_app self;
        lifespan_sent := lifespan_sent self ++ [message];
        error_log := error_log self; warnings := warnings self |}, Done tt).

(** [error_logger.exception(e)] *)
Definition log_exception (e : E) : coro (Lifespan E X) E unit :=
  fun self =>
    ({| sanic_app := sanic_app self; lifespan_sent := lifespan_sent self;
        error_log := error_log self ++ [e]; warnings := warnings self |},
     Done tt).

(** [warnings.warn(text)] *)
Definition warn (text : string) : coro (Lifespan E X) E unit :=
  fun self =>
    ({| sanic_app := sanic_app self; lifespan_sent := lifespan_sent self;
        error_log := error_log self; warnings := warnings self ++ [text] |},
     Done tt).

Definition uvloop_warning : string :=
  "You have set the USE_UVLOOP configuration option, but Sanic cannot control the event loop when running in ASGI mode.This option will be ignored.".

(** [Lifespan.startup] *)
Definition startup : coro (Lifespan E X) E unit :=
  await _ <- on_app _startup ;
  await _ <- on_app (_server_event "init" "before") ;
  await _ <- on_app (_server_event "init" "after") ;
  fun self =>
    if negb (USE_UVLOOP_is_Default (sanic_app self))
    then warn uvloop_warning self
    else (self, Done tt).

(** [Lifespan.shutdown] *)
Definition shutdown : coro (Lifespan E X) E unit :=
  await _ <- on_app (_server_event "shutdown" "before") ;
  on_app (_server_event "shutdown" "after").

(** [try: await body / except Exception as e: log, send failed /
    else: send complete], the pattern of both branches of the loop. *)
Definition report (body : coro (Lifespan E X) E unit) (failed complete : string)
  : coro (Lifespan E X) E unit :=
  fun self =>
    match body self with
    | (self', Done _) =>
        lifespan_send {| lifespan_type := complete; lifespan_message := None |} self'
    | (self', Raise e) =>
        (await _ <- log_exception e ;
         lifespan_send {| lifespan_type := failed;
                          lifespan_message := Some (str e) |}) self'
    | (self', Pending) => (self', Pending)
    end.

(** [Lifespan.__call__]: the loop, run on the messages that the receive
    channel will deliver.  The result holds the messages left in the
    channel.  [Pending]: the loop is waiting in [self.receive()]. *)
Fixpoint Lifespan_call (inbox : list LifespanMessage) (self : Lifespan E X)
  : Lifespan E X * list LifespanMessage * outcome E unit :=
  match inbox with
  | [] => (self, [], Pending)
  | message :: inbox' =>
      if decide (lifespan_type message = "lifespan.startup") then
        match report startup "lifespan.startup.failed"
                     "lifespan.startup.complete" self with
        | (self', Done _) => Lifespan_call inbox' self'
        | (self', r) => (self', inbox', r)
        end
      else if decide (lifespan_type message = "lifespan.shutdown") then
        match report shutdown "lifespan.shutdown.failed"
                     "lifespan.shutdown.complete" self with
        | (self', r) => (self', inbox', r)
        end
      else Lifespan_call inbox' self
  end.
End LifespanLoop.

(** ** The request adapter: data *)

(** Modelled from the spec: the enumeration [Stage] of [sanic.http], which
    [asgi.py] imports; its five members are the ones of the spec's data
    model. *)
Inductive Stage : Type := IDLE | REQUEST | HANDLER | RESPONSE | FAILED.

Global Instance Stage_eq_dec : EqDecision Stage.
Proof. solve_decision. Defined.

(** An ASGI connection scope, with the entries that [create] reads.
    [scope.get("headers", [])] allows the headers to be absent. *)
Record ASGIScope : Type := {
  scope_type : string;
  scope_http_version : string;
  scope_method : string;
  scope_raw_path : bytes;
  scope_query_string : bytes;
  scope_headers : option (list (bytes * bytes));
}.

(** An incoming message of the request body, as [read] looks at it:
    [message.get("body", b"")] and [message.get("more_body", False)]. *)
Record Message : Type := {
  message_body : option bytes;
  message_more_body : option bool;
}.

(** The messages that [send] gives to the send channel. *)
Inductive ASGIMessage : Type :=
| http_response_start (status : Z) (headers : list (bytes * bytes))
| http_response_body (body : bytes) (more_body : bool).

(** What the framework hands to [send]: [bytes], or a [str] still to be
    encoded. *)
Inductive payload : Type :=
| Bytes (data : bytes)
| Text (data : pystr).

Definition payload_truthy (data : payload) : bool :=
  match data with
  | Bytes d => truthy d
  | Text d => truthy d
  end.

(** The connection object that [create_websocket_connection] makes. *)
Inductive WebSocketConnection : Type := websocket_connection.

(** The [Request] that [create] builds: the arguments given to
    [request_class], then the attributes [stream] (the address of the
    adapter) and [conn_info] that [create] sets afterwards. *)
Record Request : Type := {
  url_bytes : bytes;
  headers : list (pystr * pystr);
  version : string;
  method : string;
  stream : option positive;
  conn_info : bool;
}.

(** A response object: its address and the attributes that [send] reads.
    Its attribute [stream], the only one that the adapter writes, lives in
    the store [streams] below, under the address. *)
Record BaseHTTPResponse : Type := {
  response_id : positive;
  status : Z;
  processed_headers : list (bytes * bytes);
  body : option bytes;
}.

(** The adapter object.  [self_id] is the address of the object, which
    [respond] stores in [response.stream]. *)
Record ASGIApp : Type := {
  self_id : positive;
  request : Request;
  ws : option WebSocketConnection;
  stage : Stage;
  response : option BaseHTTPResponse;
  request_body : bool;
}.

Definition set_stage (s : Stage) (self : ASGIApp) : ASGIApp :=
  {| self_id := self_id self; request := request self; ws := ws self;
     stage := s; response := response self;
     request_body := request_body self |}.

Definition set_response (r : option BaseHTTPResponse) (self : ASGIApp)
  : ASGIApp :=
  {| self_id := self_id self; request := request self; ws := ws self;
     stage := stage self; response := r;
     request_body := request_body self |}.

Definition set_request_body (v : bool) (self : ASGIApp) : ASGIApp :=
  {| self_id := self_id self; request := request self; ws := ws self;
     stage := stage self; response := response self; request_body := v |}.

(** What the adapter shares with the rest of the program on the response
    side: the [stream] attribute of every response object (absent from
    the map: [None]) and the messages given to [transport.send]. *)
Record World : Type := {
  streams : gmap positive positive;
  outbox : list ASGIMessage;
}.

Definition set_streams (m : gmap positive positive) (w : World) : World :=
  {| streams := m; outbox := outbox w |}.

(** [await self.transport.send(message)] *)
Definition transport_send (message : ASGIMessage) (w : World) : World :=
  {| streams := streams w; outbox := outbox w ++ [message] |}.

(** ** The request adapter: construction *)

(** The list comprehension of [create]: each pair in turn, the key first.
    [None] stands for the [UnicodeDecodeError] of a key. *)
Fixpoint decode_headers (hs : list (bytes * bytes))
  : option (list (pystr * pystr)) :=
  match hs with
  | [] => Some []
  | (key, value) :: hs' =>
      match decode_ascii key with
      | None => None
      | Some k =>
          let v := decode_surrogateescape value in
          match decode_headers hs' with
          | None => None
          | Some l => Some ((k, v) :: l)
          end
      end
  end.

(** [url_bytes.split(b"?", 1)[0]]: the bytes before the first [?]. *)
Fixpoint before_question_mark (bs : bytes) : bytes :=
  match bs with
  | [] => []
  | c :: bs' => if Byte.eqb c "?"%byte then [] else c :: before_question_mark bs'
  end.

(** Lines 162 to 167: the request target. *)
Definition request_target (raw_path query : bytes) : bytes :=
  if truthy query
  then before_question_mark raw_path ++ b "?" ++ query
  else raw_path.

(** What [create] changes outside the adapter: [sanic_app.state.is_started],
    the context variable [Request._current], and the signals dispatched. *)
Record AppContext : Type := {
  is_started : bool;
  _current : option Request;
  dispatched : list (string * Request);
}.

(** Lines 149 to 160: the version, the method and the websocket connection
    by the kind of the scope; [None] for a kind that the adapter does not
    know. *)
Definition scope_kind (scope : ASGIScope)
  : option (string * string * option WebSocketConnection) :=
  if decide (scope_type scope = "http")
  then Some (scope_http_version scope, scope_method scope, None)
  else if decide (scope_type scope = "websocket")
  then Some ("1.1", "GET", Some websocket_connection)
  else None.

(** The request once lines 170 to 181 have run: the arguments of the
    constructor, the adapter at [addr] as its stream, and the connection
    information. *)
Definition new_request (url_bytes : bytes) (hdrs : list (pystr * pystr))
  (version method : string) (addr : positive) : Request :=
  {| url_bytes := url_bytes; headers := hdrs; version := version;
     method := method; stream := Some addr; conn_info := true |}.

(** The adapter that [create] returns. *)
Definition new_instance (addr : positive) (request : Request)
  (ws : option WebSocketConnection) : ASGIApp :=
  {| self_id := addr; request := request; ws := ws; stage := IDLE;
     response := None; request_body := true |}.

(** The context once the request is the current one and the signal
    ["http.lifecycle.request"] has been dispatched with it. *)
Definition request_bound (ctx : AppContext) (request : Request) : AppContext :=
  {| is_started := true; _current := Some request;
     dispatched := dispatched ctx ++ [("http.lifecycle.request", request)] |}.

Section Create.
Context {E : Type}.

(** [request_class(url_bytes, headers, version, method, transport,
    sanic_app)] on line 170.  The class is [sanic_app.request_class] or
    the [Request] of [sanic.request], which is not part of this file: the
    parameter gives the exception that its constructor raises on the
    arguments, if any ([Request] raises [BadRequest] on a URL that it
    cannot parse).  When the constructor raises nothing, the request holds
    the arguments. *)
Variable request_class :
  bytes -> list (pystr * pystr) -> string -> string -> option exn.

(** [sanic_app.dispatch(event, inline=True, context={"request": request},
    fail_not_found=False)]: the exception it ends with, if any. *)
Variable dispatch : string -> Request -> option E.

(** [ASGIApp.create]; [addr] is the address of the new instance.  The
    exceptions are the adapter's own and those of the constructor of the
    request ([inl]), or the one of [dispatch] ([inr]). *)
Definition create (scope : ASGIScope) (addr : positive) (ctx : AppContext)
  : AppContext * outcome (exn + E) ASGIApp :=
  let ctx0 := {| is_started := true; _current := _current ctx;
                 dispatched := dispatched ctx |} in
  match decode_headers (default [] (scope_headers scope)) with
  | None =>
      (ctx0, Raise (inl (BadRequest
                           "Header names can only contain US-ASCII characters")))
  | Some hdrs =>
      match scope_kind scope with
      | None => (ctx0, Raise (inl (ServerError "Received unknown ASGI scope")))
      | Some (version, method, ws) =>
          let url_bytes :=
            request_target (scope_raw_path scope) (scope_query_string scope) in
          match request_class url_bytes hdrs version method with
          | Some e => (ctx0, Raise (inl e))
          | None =>
              let request := new_request url_bytes hdrs version method addr in
              match dispatch "http.lifecycle.request" request with
              | Some e => (request_bound ctx request, Raise (inr e))
              | None =>
                  (request_bound ctx request, Done (new_instance addr request ws))
              end
          end
      end
  end.
End Create.

(** ** The request adapter: the request body *)

(** Lines 196 to 197 of [read], before the [await]. *)
Definition begin_read (self : ASGIApp) : ASGIApp :=
  if decide (stage self = IDLE) then set_stage REQUEST self else self.

(** Lines 199 to 204 of [read], once [receive] has delivered [message]. *)
Definition read_message (self : ASGIApp) (message : Message)
  : ASGIApp * option bytes :=
  let body := default [] (message_body message) in
  if negb (default false (message_more_body message))
  then
    let self := set_request_body false self in
    if negb (truthy body) then (self, None) else (self, Some body)
  else (self, Some body).

(** [ASGIApp.read], on the messages that the receive channel will deliver;
    the result holds the messages left.  With nothing to receive the
    [await] does not complete. *)
Definition read (self : ASGIApp) (inbox : list Message)
  : ASGIApp * list Message * outcome exn (option bytes) :=
  let self := begin_read self in
  match inbox with
  | [] => (self, [], Pending)
  | message :: inbox' =>
      let '(self, data) := read_message self message in
      (self, inbox', Done data)
  end.

(** [if data:] on what [read] returned. *)
Definition data_truthy (data : option bytes) : bool :=
  match data with
  | Some d => truthy d
  | None => false
  end.

(** [ASGIApp.__aiter__], one resumption of the generator: it runs the loop
    up to the next [yield] ([Done (Some data)]) or to the end of the loop
    ([Done None], the end of the iteration).  The generator keeps nothing
    between two resumptions but [self], so that a resumption is this
    function again. *)
Fixpoint aiter_next (self : ASGIApp) (inbox : list Message)
  : ASGIApp * list Message * outcome exn (option bytes) :=
  if request_body self then
    match inbox with
    | [] => (begin_read self, [], Pending)
    | message :: inbox' =>
        let '(self', data) := read_message (begin_read self) message in
        if data_truthy data
        then (self', inbox', Done data)
        else aiter_next self' inbox'
    end
  else (self, inbox, Done None).

(** [async for data in stream]: the chunks in the order of their arrival,
    and whether the iteration ended ([Done]) or is waiting for a message. *)
Fixpoint aiter_all (self : ASGIApp) (inbox : list Message)
  : ASGIApp * list Message * list bytes * outcome exn unit :=
  if request_body self then
    match inbox with
    | [] => (begin_read self, [], [], Pending)
    | message :: inbox' =>
        let '(self', data) := read_message (begin_read self) message in
        let '(self'', inbox'', chunks, r) := aiter_all self' inbox' in
        match data with
        | Some d => if truthy d then (self'', inbox'', d :: chunks, r)
                    else (self'', inbox'', chunks, r)
        | None => (self'', inbox'', chunks, r)
        end
    end
  else (self, inbox, [], Done tt).

(** ** The request adapter: the response *)

(** [ASGIApp.respond] *)
Definition respond (new : BaseHTTPResponse)
  : coro (ASGIApp * World) exn BaseHTTPResponse :=
  fun '(self, w) =>
    if negb (bool_decide (stage self = HANDLER)) then
      ((set_stage FAILED self, w), Raise (RuntimeError "Response already started"))
    else
      let w :=
        match response self with
        | Some old => set_streams (delete (response_id old) (streams w)) w
        | None => w
        end in
      let w := set_streams (<[response_id new := self_id self]> (streams w)) w in
      ((set_response (Some new) self, w), Done new).

(** [response_body + data if data else response_body] on line 234, for a
    body that is not empty; [bytes + str] is a [TypeError]. *)
Definition prepend_body (response_body : bytes) (data : payload)
  : outcome exn payload :=
  if payload_truthy data then
    match data with
    | Bytes d => Done (Bytes (response_body ++ d))
    | Text _ => Raise TypeError
    end
  else Done (Bytes response_body).

(** [data.encode() if hasattr(data, "encode") else data] *)
Definition encode_payload (data : payload) : outcome exn bytes :=
  match data with
  | Bytes d => Done d
  | Text d =>
      match encode d with
      | Some d' => Done d'
      | None => Raise UnicodeEncodeError
      end
  end.

(** Lines 235 to 241 of [send]. *)
Definition send_body (data : payload) (end_stream : bool)
  : coro (ASGIApp * World) exn unit :=
  fun '(self, w) =>
    match encode_payload data with
    | Done d =>
        ((self, transport_send (http_response_body d (negb end_stream)) w),
         Done tt)
    | Raise e => ((self, w), Raise e)
    | Pending => ((self, w), Pending)
    end.

(** [ASGIApp.send].  A response object is true in [if self.response:],
    so that the test is the one of a pending response. *)
Definition send (data : payload) (end_stream : bool)
  : coro (ASGIApp * World) exn unit :=
  fun '(self, w) =>
    let self := set_stage (if end_stream then IDLE else RESPONSE) self in
    match response self with
    | Some resp =>
        let self := set_response None self in
        let w :=
          transport_send
            (http_response_start (status resp) (processed_headers resp)) w in
        let response_body := default [] (body resp) in
        if truthy response_body then
          match prepend_body response_body data with
          | Done data' => send_body data' end_stream (self, w)
          | Raise e => ((self, w), Raise e)
          | Pending => ((self, w), Pending)
          end
        else send_body data end_stream (self, w)
    | None => send_body data end_stream (self, w)
    end.

(** ** The request adapter: the top-level invocation *)

(** A connection: the adapter, what it shares on the response side, and
    the messages that its receive channel will deliver. *)
Record Conn : Type := {
  app : ASGIApp;
  world : World;
  inbox : list Message;
}.

(** The calls that [__call__] makes on the framework.  The third argument
    of [handle_exception] is [None] when the call leaves it out. *)
Inductive Invocation (E : Type) : Type :=
| handle_request_called (request : Request)
| handle_exception_called (request : Request) (e : E) (third : option bool).

Arguments handle_request_called {E} request.
Arguments handle_exception_called {E} request e third.

(** Line 250. *)
Definition enter_handler (c : Conn) : Conn :=
  {| app := set_stage HANDLER (app c); world := world c; inbox := inbox c |}.

Section Call.
Context {E X : Type}.

(** [sanic_app.handle_request(request)]; it works on the connection,
    through [request.stream], and on the state [X] of the framework. *)
Variable handle_request : Request -> coro (Conn * X) E unit.
(** [sanic_app.handle_exception(request, exception, third)] *)
Variable handle_exception :
  Request -> E -> option bool -> coro (Conn * X) E unit.

(** [ASGIApp.__call__]: the final state, the calls made on the
    framework in their order, and how the coroutine ends. *)
Definition ASGIApp_call (c : Conn) (x : X)
  : (Conn * X) * list (Invocation E) * outcome E unit :=
  let c := enter_handler c in
  let req := request (app c) in
  match handle_request req (c, x) with
  | ((c1, x1), Raise e) =>
      let req1 := request (app c1) in
      match handle_exception req1 e None (c1, x1) with
      | ((c2, x2), Raise exc) =>
          let req2 := request (app c2) in
          let '(s3, r) := handle_exception req2 exc (Some false) (c2, x2) in
          (s3,
           [handle_request_called req; handle_exception_called req1 e None;
            handle_exception_called req2 exc (Some false)],
           r)
      | (s2, r) =>
          (s2, [handle_request_called req; handle_exception_called req1 e None], r)
      end
  | (s1, r) => (s1, [handle_request_called req], r)
  end.
End Call.

(** ** Sequences of operations on one adapter *)

(** The operations that change an adapter: the methods, one resumption of
    the iteration, and the entry into [__call__]. *)
Inductive Operation : Type :=
| op_read
| op_aiter_next
| op_respond (new : BaseHTTPResponse)
| op_send (data : payload) (end_stream : bool)
| op_call.

Definition run_operation (o : Operation) (c : Conn) : Conn :=
  match o with
  | op_read =>
      let '(self, inbox', _) := read (app c) (inbox c) in
      {| app := self; world := world c; inbox := inbox' |}
  | op_aiter_next =>
      let '(self, inbox', _) := aiter_next (app c) (inbox c) in
      {| app := self; world := world c; inbox := inbox' |}
  | op_respond new =>
      let '((self, w), _) := respond new (app c, world c) in
      {| app := self; world := w; inbox := inbox c |}
  | op_send data end_stream =>
      let '((self, w), _) := send data end_stream (app c, world c) in
      {| app := self; world := w; inbox := inbox c |}
  | op_call => enter_handler c
  end.

(** The stages that an adapter goes through under a sequence of
    operations, the first one included. *)
Fixpoint stages (ops : list Operation) (c : Conn) : list Stage :=
  match ops with
  | [] => [stage (app c)]
  | o :: ops' => stage (app c) :: stages ops' (run_operation o c)
  end.

(** ** Notions used in the statements *)

(** A byte string is ASCII when each of its bytes is below 128. *)
Definition is_ascii (bs : bytes) : Prop := Forall (fun c => Byte.to_N c < 128) bs.

(** The decoded pairs, when every name is ASCII. *)
Definition decoded_pair (kv : bytes * bytes) : pystr * pystr :=
  (map Byte.to_N kv.1, decode_surrogateescape kv.2).

(** A byte string with a byte above 127. *)
Definition non_ascii (bs : bytes) : Prop :=
  Exists (fun c => 128 <= Byte.to_N c) bs.

(** The context once [create] has raised before it built a request:
    [is_started] is set, and nothing else has changed. *)
Definition started (ctx : AppContext) : AppContext :=
  {| is_started := true; _current := _current ctx;
     dispatched := dispatched ctx |}.

(** A sequence of operations, from the left. *)
Definition run_operations (ops : list Operation) (c : Conn) : Conn :=
  fold_left (fun c o => run_operation o c) ops c.

(** The invariant of the data model, one transition at a time: a stage
    may stay, advance along IDLE, REQUEST, HANDLER, RESPONSE, or go back
    from RESPONSE to IDLE; FAILED is entered from HANDLER only and never
    left. *)
Definition stage_rank (s : Stage) : nat :=
  match s with
  | IDLE => 0
  | REQUEST => 1
  | HANDLER => 2
  | RESPONSE => 3
  | FAILED => 4
  end.

Definition transition_in_data_model (s s' : Stage) : bool :=
  match s, s' with
  | FAILED, FAILED => true
  | FAILED, _ => false
  | HANDLER, FAILED => true
  | _, FAILED => false
  | RESPONSE, IDLE => true
  | _, _ => (stage_rank s <=? stage_rank s')%nat
  end.

Fixpoint follows_data_model (l : list Stage) : bool :=
  match l with
  | s :: ((s' :: _) as l') => transition_in_data_model s s' && follows_data_model l'
  | _ => true
  end.

(** The two sends of the two-chunk response. *)
Definition send_hello_world : coro (ASGIApp * World) exn unit :=
  await _ <- send (Bytes (b "hello")) false ;
  send (Bytes (b "world")) true.

(** One of the three steps of [Lifespan.startup] raises [e], the steps
    before it having completed; [x1] is the application it leaves. *)
Definition startup_step_raises {E X : Type}
  (_startup : coro X E unit) (_server_event : string -> string -> coro X E unit)
  (x : X) (x1 : X) (e : E) : Prop :=
  _startup x = (x1, Raise e)
  \/ (exists xa, _startup x = (xa, Done tt)
                 /\ _server_event "init" "before" xa = (x1, Raise e))
  \/ (exists xa xb, _startup x = (xa, Done tt)
                    /\ _server_event "init" "before" xa = (xb, Done tt)
                    /\ _server_event "init" "after" xb = (x1, Raise e)).

(** The three steps complete; [x3] is the application they leave. *)
Definition startup_steps_complete {E X : Type}
  (_startup : coro X E unit) (_server_event : string -> string -> coro X E unit)
  (x : X) (x3 : X) : Prop :=
  exists xa xb, _startup x = (xa, Done tt)
                /\ _server_event "init" "before" xa = (xb, Done tt)
                /\ _server_event "init" "after" xb = (x3, Done tt).

Definition lifespan_failed (kind text : string) : LifespanMessage :=
  {| lifespan_type := kind; lifespan_message := Some text |}.

Definition lifespan_plain (kind : string) : LifespanMessage :=
  {| lifespan_type := kind; lifespan_message := None |}.

(** The request that [create] builds for a scope, from the decoded
    headers, the version and the method. *)
Definition created_request (scope : ASGIScope) (addr : positive)
  (hdrs : list (pystr * pystr)) (version method : string) : Request :=
  new_request
    (request_target (scope_raw_path scope) (scope_query_string scope))
    hdrs version method addr.

(** ** Sample inputs *)

(** A constructor of requests that accepts every request. *)
Example request_class_ok
  : bytes -> list (pystr * pystr) -> string -> string -> option exn :=
  fun _ _ _ _ => None.

(** The scope of a request whose header names are ASCII and whose header
    value is not UTF-8. *)
Example scope_raw_value : ASGIScope :=
  {| scope_type := "http"; scope_http_version := "1.1"; scope_method := "GET";
     scope_raw_path := b "/"; scope_query_string := [];
     scope_headers := Some [(b "host", [xe9; x80])] |}.

(** The scope of a request whose second header name holds the byte 0xFF,
    and whose first header value is not UTF-8. *)
Example scope_bad_name : ASGIScope :=
  {| scope_type := "http"; scope_http_version := "1.1"; scope_method := "GET";
     scope_raw_path := b "/"; scope_query_string := [];
     scope_headers :=
       Some [(b "host", [xe9; x80]); ([x78; xff], b "v")] |}.

(** A request for [/a?x=1?dup] with the query string [x=1], and the
    adapter that [create] makes of it at the address 1. *)
Example scope_dup : ASGIScope :=
  {| scope_type := "http"; scope_http_version := "1.1"; scope_method := "GET";
     scope_raw_path := b "/a?x=1?dup"; scope_query_string := b "x=1";
     scope_headers := None |}.

Example request_dup : Request :=
  {| url_bytes := b "/a?x=1"; headers := []; version := "1.1";
     method := "GET"; stream := Some 1%positive; conn_info := true |}.

Example instance_dup : ASGIApp :=
  {| self_id := 1%positive; request := request_dup; ws := None; stage := IDLE;
     response := None; request_body := true |}.

(** The context of an application that has not started. *)
Example ctx_new : AppContext :=
  {| is_started := false; _current := None; dispatched := [] |}.

(** The body messages [b"abc"] with more to come, [b"def"] as the last
    chunk, an empty last chunk, an empty chunk with more to come, and a
    message that arrives after the end of the body. *)
Example message_abc : Message :=
  {| message_body := Some (b "abc"); message_more_body := Some true |}.

Example message_def : Message :=
  {| message_body := Some (b "def"); message_more_body := Some false |}.

Example message_end : Message :=
  {| message_body := Some []; message_more_body := Some false |}.

Example message_empty : Message :=
  {| message_body := Some []; message_more_body := Some true |}.

Example message_late : Message :=
  {| message_body := Some (b "late"); message_more_body := Some true |}.

(** A response with the status 200 and no body of its own, the same with
    the body [b"X"], and another response. *)
Example response_200 : BaseHTTPResponse :=
  {| response_id := 7%positive; status := 200;
     processed_headers := [(b "content-type", b "text/plain")]; body := None |}.

Example response_200_body : BaseHTTPResponse :=
  {| response_id := 7%positive; status := 200;
     processed_headers := [(b "content-type", b "text/plain")];
     body := Some (b "X") |}.

Example response_other : BaseHTTPResponse :=
  {| response_id := 8%positive; status := 404; processed_headers := [];
     body := None |}.

(** A connection just made: the adapter of [create], nothing sent, no
    message to receive. *)
Example world_new : World := {| streams := ∅; outbox := [] |}.

Example conn_new : Conn :=
  {| app := instance_dup; world := world_new; inbox := [] |}.

(** An application that records the steps run on it, and whose
    [init.after] listener raises ["boom"]. *)
Example startup_recorded : coro (list string) string unit :=
  fun x => (x ++ ["_startup"], Done tt).

Example server_event_recorded : string -> string -> coro (list string) string unit :=
  fun concern action x =>
    if decide (concern = "init" /\ action = "after")
    then (x ++ ["init.after"], Raise "boom")
    else (x ++ [concern +:+ "." +:+ action], Done tt).

Example lifespan_new : Lifespan string (list string) :=
  {| sanic_app := []; lifespan_sent := []; error_log := []; warnings := [] |}.

(** A framework whose request handling and whose handling of exceptions
    both raise. *)
Example handle_request_boom : Request -> coro (Conn * unit) string unit :=
  fun _ s => (s, Raise "boom").

Example handle_exception_boom
  : Request -> string -> option bool -> coro (Conn * unit) string unit :=
  fun _ _ third s =>
    match third with
    | None => (s, Raise "again")
    | Some _ => (s, Raise "fatal")
    end.

(** ** Notions used in the further statements *)

(** A step that never stays suspended: it completes or raises. *)
Definition never_hangs {S X A : Type} (m : coro S X A) : Prop :=
  forall s : S, (m s).2 <> Pending.

(** The two messages of the handshake. *)
Definition handshake (m : LifespanMessage) : bool :=
  bool_decide (lifespan_type m = "lifespan.startup")
  || bool_decide (lifespan_type m = "lifespan.shutdown").

(** [reply] answers [request]: it is the completion message of the same
    phase, or its failure message with a text. *)
Definition answers (request reply : LifespanMessage) : Prop :=
  (lifespan_type reply = lifespan_type request +:+ ".complete"
   /\ lifespan_message reply = None)
  \/ (lifespan_type reply = lifespan_type request +:+ ".failed"
      /\ is_Some (lifespan_message reply)).

(** One of the two steps of [Lifespan.shutdown] raises [e], the step
    before it having completed; [x1] is the application it leaves. *)
Definition shutdown_step_raises {E X : Type}
  (_server_event : string -> string -> coro X E unit)
  (x : X) (x1 : X) (e : E) : Prop :=
  _server_event "shutdown" "before" x = (x1, Raise e)
  \/ (exists xa, _server_event "shutdown" "before" x = (xa, Done tt)
                 /\ _server_event "shutdown" "after" xa = (x1, Raise e)).

(** The two steps complete; [x2] is the application they leave. *)
Definition shutdown_steps_complete {E X : Type}
  (_server_event : string -> string -> coro X E unit)
  (x : X) (x2 : X) : Prop :=
  exists xa, _server_event "shutdown" "before" x = (xa, Done tt)
             /\ _server_event "shutdown" "after" xa = (x2, Done tt).

(** An application whose [shutdown.before] listener raises ["stop"]. *)
Example server_event_stop : string -> string -> coro (list string) string unit :=
  fun concern action x =>
    if decide (concern = "shutdown" /\ action = "before")
    then (x ++ ["shutdown.before"], Raise "stop")
    else (x ++ [concern +:+ "." +:+ action], Done tt).

(** A scope of a kind that the adapter does not know, a websocket scope
    that declares a method of its own, and a framework whose observers
    of the request raise. *)
Example scope_unknown : ASGIScope :=
  {| scope_type := "lifespan"; scope_http_version := "1.1";
     scope_method := "GET"; scope_raw_path := b "/"; scope_query_string := [];
     scope_headers := Some [([x78; xff], b "v")] |}.

Example scope_websocket : ASGIScope :=
  {| scope_type := "websocket"; scope_http_version := "2";
     scope_method := "POST"; scope_raw_path := b "/ws"; scope_query_string := [];
     scope_headers := None |}.

Example request_websocket : Request :=
  {| url_bytes := b "/ws"; headers := []; version := "1.1"; method := "GET";
     stream := Some 1%positive; conn_info := true |}.

Example instance_websocket : ASGIApp :=
  {| self_id := 1%positive; request := request_websocket;
     ws := Some websocket_connection; stage := IDLE; response := None;
     request_body := true |}.

Example dispatch_fails : string -> Request -> option string :=
  fun _ _ => Some "observer failed".

(** A request with two ASCII headers, and the adapter that [create]
    makes of it at the address 1. *)
Example scope_ascii : ASGIScope :=
  {| scope_type := "http"; scope_http_version := "1.1"; scope_method := "GET";
     scope_raw_path := b "/"; scope_query_string := [];
     scope_headers := Some [(b "host", b "a"); (b "x", b "")] |}.

Example instance_ascii : ASGIApp :=
  {| self_id := 1%positive;
     request :=
       {| url_bytes := b "/"; headers := [([104; 111; 115; 116], [97]); ([120], [])];
          version := "1.1"; method := "GET"; stream := Some 1%positive;
          conn_info := true |};
     ws := None; stage := IDLE; response := None; request_body := true |}.

(** The chunk of a body message and its flag, as [read] takes them. *)
Definition body_of (m : Message) : bytes := default [] (message_body m).

Definition more_follows (m : Message) : bool :=
  default false (message_more_body m).

(** The chunks of a run of messages that are not empty, in their order. *)
Definition chunks_of (ms : list Message) : list bytes :=
  List.filter truthy (map body_of ms).

(** The stage that [send] sets. *)
Definition stage_after_send (end_stream : bool) : Stage :=
  if end_stream then IDLE else RESPONSE.

(** The start message of a response, and the body message of a chunk. *)
Definition start_message (resp : BaseHTTPResponse) : ASGIMessage :=
  http_response_start (status resp) (processed_headers resp).

Definition body_message (chunk : bytes * bool) : ASGIMessage :=
  http_response_body chunk.1 (negb chunk.2).

(** The calls [send(data, end_stream)] of a list of chunks, one after the
    other, as long as none raises. *)
Fixpoint send_all (chunks : list (bytes * bool))
  : coro (ASGIApp * World) exn unit :=
  match chunks with
  | [] => fun s => (s, Done tt)
  | (data, end_stream) :: chunks' =>
      await _ <- send (Bytes data) end_stream ;
      send_all chunks'
  end.

(** The stage after the calls of [send_all], from the stage [s]. *)
Definition stage_after_chunks (s : Stage) (chunks : list (bytes * bool))
  : Stage :=
  List.last (map (fun chunk => stage_after_send chunk.2) chunks) s.

(** The pending response, if there is one, is linked to the adapter. *)
Definition pending_linked (c : Conn) : Prop :=
  forall r : BaseHTTPResponse,
    response (app c) = Some r ->
    streams (world c) !! response_id r = Some (self_id (app c)).

(** Two calls of [respond] and then one of [send]. *)
Definition respond_twice_and_send
  (first second : BaseHTTPResponse) (data : bytes) (end_stream : bool)
  : coro (ASGIApp * World) exn unit :=
  await _ <- respond first ;
  await _ <- respond second ;
  send (Bytes data) end_stream.

(** A method of the adapter, as a handler calls it through
    [request.stream]. *)
Definition on_conn {X A : Type} (m : coro (ASGIApp * World) exn A)
  : coro (Conn * X) exn A :=
  fun '(c, x) =>
    let '((self, w), r) := m (app c, world c) in
    (({| app := self; world := w; inbox := inbox c |}, x), r).

(** A handler that answers with one response and one last chunk. *)
Definition handler_respond_send {X : Type}
  (resp : BaseHTTPResponse) (data : bytes)
  : Request -> coro (Conn * X) exn unit :=
  fun _ =>
    await _ <- on_conn (respond resp) ;
    on_conn (send (Bytes data) true).

(** A handler that starts to stream a response and then calls [respond]
    again. *)
Definition handler_respond_again {X : Type}
  (first second : BaseHTTPResponse) (data : bytes)
  : Request -> coro (Conn * X) exn unit :=
  fun _ =>
    await _ <- on_conn (respond first) ;
    await _ <- on_conn (send (Bytes data) false) ;
    await _ <- on_conn (respond second) ;
    on_conn (send (Bytes data) true).

(** * Properties *)

(** ** The codecs *)

Lemma byte_of_to_N (c : byte) : byte_of (Byte.to_N c) = c.
Proof. unfold byte_of. by rewrite Byte.of_to_N. Qed.

(** Boolean tests in the hypotheses become propositions. *)
Ltac bool_to_prop :=
  repeat match goal with
  | H : _ && _ = true |- _ => apply andb_prop in H; destruct H
  | H : (_ <=? _) = true |- _ => apply N.leb_le in H
  | H : (_ <? _) = true |- _ => apply N.ltb_lt in H
  | H : (_ <=? _) = false |- _ => apply N.leb_gt in H
  | H : (_ <? _) = false |- _ => apply N.ltb_ge in H
  | H : (_ =? _) = true |- _ => apply N.eqb_eq in H
  | H : (_ =? _) = false |- _ => apply N.eqb_neq in H
  | H : context [if ?x =? ?y then _ else _] |- _ => destruct (x =? y) eqn:?
  end.

(** The comparisons of the goal that arithmetic settles are evaluated. *)
Ltac decide_tests :=
  repeat match goal with
  | |- context [?x <? ?y] =>
      first [ replace (x <? y) with true by (symmetry; apply N.ltb_lt; lia)
            | replace (x <? y) with false by (symmetry; apply N.ltb_ge; lia) ]
  | |- context [?x <=? ?y] =>
      first [ replace (x <=? y) with true by (symmetry; apply N.leb_le; lia)
            | replace (x <=? y) with false by (symmetry; apply N.leb_gt; lia) ]
  end.

(** Each [byte_of e] of the goal is the byte whose value [e] is. *)
Ltac recover_bytes :=
  repeat match goal with
  | c : byte |- context [byte_of ?e] =>
      lazymatch e with
      | Byte.to_N _ => fail
      | _ => replace e with (Byte.to_N c) by lia
      end
  end;
  rewrite !byte_of_to_N.

Lemma encode_cp_ascii (se : bool) (c : byte) :
  Byte.to_N c < 128 -> encode_cp se (Byte.to_N c) = Some [c].
Proof.
  intros H. unfold encode_cp. decide_tests. by rewrite byte_of_to_N.
Qed.

Lemma encode_cp_escape (c : byte) :
  128 <= Byte.to_N c -> encode_cp true (escape (Byte.to_N c)) = Some [c].
Proof.
  intros H. pose proof (Byte.to_N_bounded c).
  unfold encode_cp, escape. decide_tests. cbn.
  replace (56320 + Byte.to_N c - 56320) with (Byte.to_N c) by lia.
  by rewrite byte_of_to_N.
Qed.

Lemma encode_cp_cp2 (se : bool) (c0 c1 : byte) :
  valid2 (Byte.to_N c0) (Byte.to_N c1) = true ->
  encode_cp se (cp2 (Byte.to_N c0) (Byte.to_N c1)) = Some [c0; c1].
Proof.
  unfold valid2, is_cont. intros H. bool_to_prop.
  unfold encode_cp, cp2. decide_tests. by recover_bytes.
Qed.

Lemma encode_cp_cp3 (se : bool) (c0 c1 c2 : byte) :
  valid3 (Byte.to_N c0) (Byte.to_N c1) (Byte.to_N c2) = true ->
  encode_cp se (cp3 (Byte.to_N c0) (Byte.to_N c1) (Byte.to_N c2))
  = Some [c0; c1; c2].
Proof.
  unfold valid3, is_cont. intros H. bool_to_prop.
  all: try (exfalso; lia).
  all: assert (Byte.to_N c0 < 237 \/ 237 <= Byte.to_N c0) as [?|?] by lia.
  all: try (exfalso; lia).
  all: unfold encode_cp, cp3; decide_tests; cbn; by recover_bytes.
Qed.

Lemma encode_cp_cp4 (se : bool) (c0 c1 c2 c3 : byte) :
  valid4 (Byte.to_N c0) (Byte.to_N c1) (Byte.to_N c2) (Byte.to_N c3) = true ->
  encode_cp se (cp4 (Byte.to_N c0) (Byte.to_N c1) (Byte.to_N c2) (Byte.to_N c3))
  = Some [c0; c1; c2; c3].
Proof.
  unfold valid4, is_cont. intros H. bool_to_prop.
  all: try (exfalso; lia).
  all: unfold encode_cp, cp4; decide_tests; cbn; by recover_bytes.
Qed.

(** Encoding with the same error handler gives the bytes back: nothing of
    a header value is lost by [decode_surrogateescape]. *)
Lemma encode_decode_surrogateescape (bs : bytes) :
  encode_utf8 true (decode_surrogateescape bs) = Some bs.
Proof.
  remember (length bs) as n eqn:Hn.
  revert bs Hn. induction (lt_wf n) as [n _ IH]. intros bs Hn.
  assert (IH' : forall bs' : bytes, (length bs' < length bs)%nat ->
            encode_utf8 true (decode_surrogateescape bs') = Some bs').
  { intros bs' Hlt. apply (IH (length bs')); [lia | done]. }
  clear IH Hn.
  assert (Hesc : forall c0 r0, bs = c0 :: r0 -> (Byte.to_N c0 <? 128) = false ->
            encode_utf8 true (escape (Byte.to_N c0) :: decode_surrogateescape r0)
            = Some bs).
  { intros c0 r0 -> Hc. cbn [encode_utf8].
    rewrite encode_cp_escape by (apply N.ltb_ge in Hc; lia).
    by rewrite IH' by (cbn; lia). }
  destruct bs as [|c0 r0]; [done|].
  cbn [decode_surrogateescape].
  destruct (Byte.to_N c0 <? 128) eqn:H0.
  { cbn [encode_utf8]. rewrite encode_cp_ascii by (by apply N.ltb_lt).
    by rewrite IH' by (cbn; lia). }
  destruct r0 as [|c1 r1]; [by apply Hesc|].
  destruct (valid2 _ _) eqn:H2.
  { cbn [encode_utf8]. rewrite encode_cp_cp2 by done.
    by rewrite IH' by (cbn; lia). }
  destruct r1 as [|c2 r2]; [by apply Hesc|].
  destruct (valid3 _ _ _) eqn:H3.
  { cbn [encode_utf8]. rewrite encode_cp_cp3 by done.
    by rewrite IH' by (cbn; lia). }
  destruct r2 as [|c3 r3]; [by apply Hesc|].
  destruct (valid4 _ _ _ _) eqn:H4.
  { cbn [encode_utf8]. rewrite encode_cp_cp4 by done.
    by rewrite IH' by (cbn; lia). }
  by apply Hesc.
Qed.

Lemma decode_surrogateescape_inj (v1 v2 : bytes) :
  decode_surrogateescape v1 = decode_surrogateescape v2 -> v1 = v2.
Proof.
  intros H. apply (f_equal (encode_utf8 true)) in H.
  rewrite !encode_decode_surrogateescape in H. congruence.
Qed.

Lemma decode_ascii_Some (bs : bytes) :
  is_ascii bs -> decode_ascii bs = Some (map Byte.to_N bs).
Proof.
  induction 1 as [|c bs Hc _ IH]; [done|].
  cbn. apply N.ltb_lt in Hc. by rewrite Hc, IH.
Qed.

Lemma decode_headers_Some (hs : list (bytes * bytes)) :
  Forall (fun kv => is_ascii kv.1) hs ->
  decode_headers hs = Some (map decoded_pair hs).
Proof.
  induction 1 as [|[k v] hs Hk _ IH]; [done|].
  cbn in *. by rewrite (decode_ascii_Some k Hk), IH.
Qed.

Lemma decode_ascii_non_ascii (bs : bytes) :
  non_ascii bs -> decode_ascii bs = None.
Proof.
  induction 1 as [c bs Hc|c bs _ IH]; cbn.
  - apply N.ltb_ge in Hc. by rewrite Hc.
  - rewrite IH. by destruct (Byte.to_N c <? 128).
Qed.

Lemma decode_headers_non_ascii (hs : list (bytes * bytes)) :
  Exists (fun kv => non_ascii kv.1) hs -> decode_headers hs = None.
Proof.
  induction 1 as [[k v] hs Hk|[k v] hs _ IH]; cbn in *.
  - by rewrite (decode_ascii_non_ascii k Hk).
  - rewrite IH. by destruct (decode_ascii k).
Qed.

(** ** Construction *)

(** Every header name is ASCII, or one of them is not. *)
Lemma header_names_ascii_or_not (hs : list (bytes * bytes)) :
  Forall (fun kv => is_ascii kv.1) hs \/ Exists (fun kv => non_ascii kv.1) hs.
Proof.
  assert (Hbs : forall bs : bytes, is_ascii bs \/ non_ascii bs).
  { induction bs as [|c bs [IH|IH]].
    - left. constructor.
    - destruct (N.lt_ge_cases (Byte.to_N c) 128) as [Hc|Hc].
      + left. by constructor.
      + right. by apply Exists_cons_hd.
    - right. by apply Exists_cons_tl. }
  induction hs as [|kv hs [IH|IH]].
  - left. constructor.
  - destruct (Hbs kv.1) as [Hk|Hk].
    + left. by constructor.
    + right. by apply Exists_cons_hd.
  - right. by apply Exists_cons_tl.
Qed.

(** What a returned adapter tells about the steps of [create]. *)
Lemma create_Done
  {E : Type}
  (request_class :
     bytes -> list (pystr * pystr) -> string -> string -> option exn)
  (dispatch : string -> Request -> option E)
  (scope : ASGIScope) (addr : positive) (ctx ctx' : AppContext)
  (instance : ASGIApp) :
  create request_class dispatch scope addr ctx = (ctx', Done instance) ->
  exists hdrs version method ws,
    decode_headers (default [] (scope_headers scope)) = Some hdrs
    /\ scope_kind scope = Some (version, method, ws)
    /\ request_class
         (request_target (scope_raw_path scope) (scope_query_string scope))
         hdrs version method = None
    /\ dispatch "http.lifecycle.request"
         (created_request scope addr hdrs version method) = None
    /\ instance
       = new_instance addr (created_request scope addr hdrs version method) ws
    /\ ctx' = request_bound ctx (created_request scope addr hdrs version method).
Proof.
  unfold create, created_request.
  destruct (decode_headers _) as [hdrs|]; [|done].
  destruct (scope_kind scope) as [[[version method] ws]|]; [|done].
  destruct (request_class _ _ _ _) eqn:Hclass; [done|].
  destruct (dispatch _ _) eqn:Hdispatch; [done|].
  intros [= <- <-]. by exists hdrs, version, method, ws.
Qed.

(** C4. When a header name of the scope holds a byte above 127, [create]
    raises [BadRequest] before it builds a request, whatever the
    constructor of the request and the dispatch would do: the constructor
    is not reached, nothing is bound to [Request._current] and no signal
    is dispatched.  When every name is ASCII, the header values do not
    make [create] fail, whatever bytes they hold: the headers decode;
    [create] returns the adapter as soon as the kind of the scope is
    known and neither the constructor of the request nor the dispatch
    raises; when [create] raises, the scope is of an unknown kind, or the
    exception is the one of the constructor or of the dispatch.  The
    request of the adapter holds the decoded pairs in their order, and the
    decoding of the values loses nothing (two values that decode to the
    same text are equal). *)
Theorem create_header_names
  {E : Type}
  (request_class :
     bytes -> list (pystr * pystr) -> string -> string -> option exn)
  (dispatch : string -> Request -> option E)
  (scope : ASGIScope) (addr : positive) (ctx : AppContext)
  (hs : list (bytes * bytes)) :
  scope_headers scope = Some hs ->
  (Exists (fun kv => non_ascii kv.1) hs ->
   create request_class dispatch scope addr ctx
   = (started ctx,
      Raise (inl (BadRequest
                    "Header names can only contain US-ASCII characters"))))
  /\ (Forall (fun kv => is_ascii kv.1) hs ->
      decode_headers hs = Some (map decoded_pair hs)
      /\ (forall version method ws,
            scope_kind scope = Some (version, method, ws) ->
            request_class
              (request_target (scope_raw_path scope) (scope_query_string scope))
              (map decoded_pair hs) version method = None ->
            dispatch "http.lifecycle.request"
              (created_request scope addr (map decoded_pair hs) version method)
            = None ->
            create request_class dispatch scope addr ctx
            = (request_bound ctx
                 (created_request scope addr (map decoded_pair hs)
                    version method),
               Done (new_instance addr
                       (created_request scope addr (map decoded_pair hs)
                          version method) ws)))
      /\ (forall ctx' err,
            create request_class dispatch scope addr ctx = (ctx', Raise err) ->
            (scope_kind scope = None
             /\ err = inl (ServerError "Received unknown ASGI scope"))
            \/ (exists version method ws e,
                  scope_kind scope = Some (version, method, ws)
                  /\ request_class
                       (request_target (scope_raw_path scope)
                          (scope_query_string scope))
                       (map decoded_pair hs) version method = Some e
                  /\ err = inl e)
            \/ (exists version method ws e,
                  scope_kind scope = Some (version, method, ws)
                  /\ dispatch "http.lifecycle.request"
                       (created_request scope addr (map decoded_pair hs)
                          version method) = Some e
                  /\ err = inr e))
      /\ (forall ctx' instance,
            create request_class dispatch scope addr ctx = (ctx', Done instance) ->
            headers (request instance) = map decoded_pair hs))
  /\ (forall v1 v2 : bytes,
        decode_surrogateescape v1 = decode_surrogateescape v2 -> v1 = v2).
Proof.
  intros Hhs. split; [|split].
  - intros Hbad. unfold create. rewrite Hhs.
    change (default [] (Some hs)) with hs.
    by rewrite (decode_headers_non_ascii hs Hbad).
  - intros Hok. pose proof (decode_headers_Some hs Hok) as Hdec.
    split; [done|].
    unfold create, created_request. rewrite Hhs.
    change (default [] (Some hs)) with hs. rewrite Hdec.
    split; [|split].
    + intros version method ws Hkind Hclass Hdispatch.
      by rewrite Hkind, Hclass, Hdispatch.
    + intros ctx' err.
      destruct (scope_kind scope) as [[[version method] ws]|].
      * destruct (request_class _ _ _ _) as [e|] eqn:Hclass.
        -- intros [= <- <-]. right. left. by exists version, method, ws, e.
        -- destruct (dispatch _ _) as [e|] eqn:Hdispatch; [|done].
           intros [= <- <-]. right. right. by exists version, method, ws, e.
      * intros [= <- <-]. by left.
    + intros ctx' instance.
      destruct (scope_kind scope) as [[[version method] ws]|]; [|done].
      destruct (request_class _ _ _ _); [done|].
      destruct (dispatch _ _); [done|]. by intros [= <- <-].
  - apply decode_surrogateescape_inj.
Qed.

Lemma create_header_names_witness :
  create request_class_ok (fun _ _ => @None unit) scope_bad_name 1%positive
    ctx_new
  = (started ctx_new,
     Raise (inl (BadRequest
                   "Header names can only contain US-ASCII characters")))
  /\ create request_class_ok (fun _ _ => @None unit) scope_raw_value 1%positive
       ctx_new
     = (request_bound ctx_new
          (created_request scope_raw_value 1%positive
             (map decoded_pair [(b "host", [xe9; x80])]) "1.1" "GET"),
        Done (new_instance 1%positive
                (created_request scope_raw_value 1%positive
                   (map decoded_pair [(b "host", [xe9; x80])]) "1.1" "GET")
                None)).
Proof.
  split.
  - apply (proj1 (create_header_names request_class_ok
                    (fun _ _ => @None unit) scope_bad_name 1%positive ctx_new
                    [(b "host", [xe9; x80]); ([x78; xff], b "v")] eq_refl)).
    apply Exists_cons_tl, Exists_cons_hd. cbn.
    apply Exists_cons_tl, Exists_cons_hd. vm_compute. discriminate.
  - destruct (proj1 (proj2 (create_header_names request_class_ok
                              (fun _ _ => @None unit) scope_raw_value
                              1%positive ctx_new
                              [(b "host", [xe9; x80])] eq_refl)))
      as (_ & Hdone & _).
    + repeat constructor.
    + apply (Hdone "1.1"%string "GET"%string None eq_refl eq_refl eq_refl).
Defined.

(** [before_question_mark] cuts at the first [?]: what it returns holds
    no [?], and what it leaves out is empty or starts with [?]. *)
Lemma before_question_mark_split (raw : bytes) :
  exists rest : bytes,
    raw = before_question_mark raw ++ rest
    /\ ~ In "?"%byte (before_question_mark raw)
    /\ (rest = [] \/ exists rest', rest = "?"%byte :: rest').
Proof.
  induction raw as [|c raw (rest & Hraw & Hnot & Hrest)]; cbn.
  - exists []. tauto.
  - destruct (Byte.eqb c "?") eqn:Hc.
    + apply Byte.byte_dec_bl in Hc as ->. exists ("?"%byte :: raw).
      split; [done|]. split; [tauto|]. right. by exists raw.
    + apply Byte.eqb_false in Hc. exists rest. cbn.
      split; [congruence|]. split; [|done]. intros [Heq|Hin]; [congruence|tauto].
Qed.

Lemma create_url_bytes
  {E : Type}
  (request_class :
     bytes -> list (pystr * pystr) -> string -> string -> option exn)
  (dispatch : string -> Request -> option E)
  (scope : ASGIScope) (addr : positive) (ctx ctx' : AppContext)
  (instance : ASGIApp) :
  create request_class dispatch scope addr ctx = (ctx', Done instance) ->
  url_bytes (request instance)
  = request_target (scope_raw_path scope) (scope_query_string scope).
Proof.
  intros Hcreate.
  destruct (create_Done _ _ _ _ _ _ _ Hcreate)
    as (hdrs & version & method & ws & Hdec & Hkind & _ & _ & -> & _).
  done.
Qed.

(** The adapter that [create] returns is in the stage IDLE, expects a
    body and has no pending response. *)
Lemma create_fresh
  {E : Type}
  (request_class :
     bytes -> list (pystr * pystr) -> string -> string -> option exn)
  (dispatch : string -> Request -> option E)
  (scope : ASGIScope) (addr : positive) (ctx ctx' : AppContext)
  (instance : ASGIApp) :
  create request_class dispatch scope addr ctx = (ctx', Done instance) ->
  stage instance = IDLE /\ request_body instance = true
  /\ response instance = None /\ self_id instance = addr.
Proof.
  intros Hcreate.
  destruct (create_Done _ _ _ _ _ _ _ Hcreate)
    as (hdrs & version & method & ws & Hdec & Hkind & _ & _ & -> & _).
  done.
Qed.

(** C5. With a query string that is not empty, the request target that
    [create] gives to the request is the raw path cut at its first [?],
    then [?], then the query string.  So [/a] with [x=1] gives [/a?x=1],
    and [/a?x=1?dup] with [x=1] gives [/a?x=1] too. *)
Theorem request_target_with_query
  {E : Type}
  (request_class :
     bytes -> list (pystr * pystr) -> string -> string -> option exn)
  (dispatch : string -> Request -> option E)
  (scope : ASGIScope) (addr : positive) (ctx ctx' : AppContext)
  (instance : ASGIApp) :
  scope_query_string scope <> [] ->
  create request_class dispatch scope addr ctx = (ctx', Done instance) ->
  url_bytes (request instance)
  = before_question_mark (scope_raw_path scope) ++ b "?"
    ++ scope_query_string scope
  /\ (exists rest : bytes,
        scope_raw_path scope = before_question_mark (scope_raw_path scope) ++ rest
        /\ ~ In "?"%byte (before_question_mark (scope_raw_path scope))
        /\ (rest = [] \/ exists rest', rest = "?"%byte :: rest'))
  /\ request_target (b "/a") (b "x=1") = b "/a?x=1"
  /\ request_target (b "/a?x=1?dup") (b "x=1") = b "/a?x=1".
Proof.
  intros Hq Hcreate. split; [|split; [|split]].
  - rewrite (create_url_bytes _ _ _ _ _ _ _ Hcreate). unfold request_target.
    by destruct (scope_query_string scope).
  - apply before_question_mark_split.
  - reflexivity.
  - reflexivity.
Qed.

Lemma request_target_with_query_witness :
  url_bytes (request instance_dup) = b "/a?x=1".
Proof.
  refine (proj1 (request_target_with_query request_class_ok
                   (fun _ _ => @None unit) scope_dup
                   1%positive ctx_new
                   {| is_started := true; _current := Some request_dup;
                      dispatched := [("http.lifecycle.request", request_dup)] |}
                   instance_dup _ _)).
  - discriminate.
  - reflexivity.
Defined.

(** ** The request body *)

Lemma request_body_begin_read (self : ASGIApp) :
  request_body (begin_read self) = request_body self.
Proof. unfold begin_read. by case_decide. Qed.

Lemma begin_read_idem (self : ASGIApp) :
  begin_read (begin_read self) = begin_read self.
Proof. unfold begin_read. repeat case_decide; cbn in *; congruence. Qed.

Lemma stage_begin_read (self : ASGIApp) :
  stage (begin_read self)
  = if decide (stage self = IDLE) then REQUEST else stage self.
Proof. unfold begin_read. by case_decide. Qed.

Lemma stage_read_message (self : ASGIApp) (message : Message) :
  stage (read_message self message).1 = stage self.
Proof.
  unfold read_message.
  destruct (negb _); [destruct (negb _)|]; done.
Qed.

(** The loop of [__aiter__] in terms of [read]: one call, then the test
    of what it returned. *)
Lemma aiter_next_read (self : ASGIApp) (inbox : list Message) :
  aiter_next self inbox
  = if request_body self then
      match read self inbox with
      | (self', inbox', Done data) =>
          if data_truthy data then (self', inbox', Done data)
          else aiter_next self' inbox'
      | r => r
      end
    else (self, inbox, Done None).
Proof.
  destruct inbox as [|message inbox]; cbn; destruct (request_body self); try done.
  unfold read. by destruct (read_message _ _).
Qed.

(** What the iteration yields is never empty. *)
Lemma aiter_next_yields_nonempty (inbox : list Message) :
  forall (self self' : ASGIApp) (inbox' : list Message) (data : bytes),
    aiter_next self inbox = (self', inbox', Done (Some data)) -> data <> [].
Proof.
  induction inbox as [|message inbox IH]; intros self self' inbox' data; cbn.
  - by destruct (request_body self).
  - destruct (request_body self); [|done].
    destruct (read_message _ _) as [self1 d] eqn:Hread.
    destruct (data_truthy d) eqn:Hd.
    + intros [= <- <- ->]. by destruct data.
    + apply IH.
Qed.

Lemma aiter_all_chunks_nonempty (inbox : list Message) :
  forall (self : ASGIApp), Forall (fun d => d <> []) (aiter_all self inbox).1.2.
Proof.
  induction inbox as [|message inbox IH]; intros self; cbn.
  - by destruct (request_body self).
  - destruct (request_body self); [|by constructor].
    destruct (read_message _ _) as [self1 d].
    specialize (IH self1). destruct (aiter_all self1 inbox) as [[[s i] chunks] r].
    cbn in *. destruct d as [[|c d]|]; cbn; try done. by constructor.
Qed.

(** C6. When the body comes as [b"abc"] with more to come and then
    [b"def"] as the last chunk, the iteration over an adapter that still
    expects a body yields [b"abc"], then [b"def"], and then ends: the third
    resumption takes no message; the chunk that came with the end of the
    body is yielded, and the end is seen at the next resumption. *)
Theorem aiter_two_chunks (self : ASGIApp) (rest : list Message) :
  request_body self = true ->
  aiter_next self (message_abc :: message_def :: rest)
  = (begin_read self, message_def :: rest, Done (Some (b "abc")))
  /\ aiter_next (begin_read self) (message_def :: rest)
     = (set_request_body false (begin_read self), rest, Done (Some (b "def")))
  /\ aiter_next (set_request_body false (begin_read self)) rest
     = (set_request_body false (begin_read self), rest, Done None)
  /\ aiter_all self (message_abc :: message_def :: rest)
     = (set_request_body false (begin_read self), rest, [b "abc"; b "def"],
        Done tt).
Proof.
  intros Hbody.
  assert (Hbody1 : request_body (begin_read self) = true)
    by by rewrite request_body_begin_read.
  split; [|split; [|split]].
  - cbn. by rewrite Hbody.
  - cbn. by rewrite Hbody1, begin_read_idem.
  - by destruct rest.
  - cbn. rewrite Hbody, Hbody1, begin_read_idem. by destruct rest.
Qed.

Lemma aiter_two_chunks_witness :
  aiter_all instance_dup [message_abc; message_def]
  = (set_request_body false (set_stage REQUEST instance_dup), [],
     [b "abc"; b "def"], Done tt).
Proof.
  apply (aiter_two_chunks instance_dup [] eq_refl).
Defined.

(** After an empty last chunk [read] has returned [None] and the adapter
    expects no more body; the next [read] still takes the message that
    arrives and returns its chunk, and with no message it stays
    suspended in [receive]. *)
Lemma read_after_end_of_body_receives :
  read instance_dup [message_end; message_late]
  = (set_request_body false (set_stage REQUEST instance_dup), [message_late],
     Done None)
  /\ read (set_request_body false (set_stage REQUEST instance_dup))
          [message_late]
     = (set_request_body false (set_stage REQUEST instance_dup), [],
        Done (Some (b "late")))
  /\ read (set_request_body false (set_stage REQUEST instance_dup)) []
     = (set_request_body false (set_stage REQUEST instance_dup), [], Pending)
  /\ ~ (forall (self : ASGIApp) (inbox : list Message),
          request_body self = false -> read self inbox = (self, inbox, Done None)).
Proof.
  split; [reflexivity|]. split; [reflexivity|]. split; [reflexivity|].
  intros H.
  specialize (H (set_request_body false (set_stage REQUEST instance_dup)) []
                eq_refl).
  discriminate H.
Qed.

(** C7, as the code has it.  On an adapter that expects no more body the
    iteration ends at once: it yields nothing, takes no message and does
    not wait.  [read] itself has no such test: it awaits the receive
    channel, takes the next message when there is one, and stays
    suspended when there is none. *)
Theorem after_end_of_body (self : ASGIApp) (inbox : list Message) :
  request_body self = false ->
  aiter_next self inbox = (self, inbox, Done None)
  /\ aiter_all self inbox = (self, inbox, [], Done tt)
  /\ read self [] = (begin_read self, [], Pending)
  /\ (forall (message : Message),
        read self (message :: inbox)
        = ((read_message (begin_read self) message).1, inbox,
           Done (read_message (begin_read self) message).2)).
Proof.
  intros Hbody. split; [|split; [|split]].
  - destruct inbox; cbn; by rewrite Hbody.
  - destruct inbox; cbn; by rewrite Hbody.
  - reflexivity.
  - intros message. unfold read. by destruct (read_message _ _).
Qed.

Lemma after_end_of_body_witness :
  aiter_next (set_request_body false instance_dup) [message_late]
  = (set_request_body false instance_dup, [message_late], Done None).
Proof.
  apply (after_end_of_body (set_request_body false instance_dup)
           [message_late] eq_refl).
Defined.

(** C10. A message with an empty body and more to come: [read] returns
    the empty chunk (not [None]) and the adapter goes on expecting a
    body; the iteration does not yield it and goes on with the next
    message.  What the iteration yields is never empty. *)
Theorem aiter_skips_empty_chunk
  (self : ASGIApp) (message : Message) (inbox : list Message) :
  default [] (message_body message) = [] ->
  message_more_body message = Some true ->
  read self (message :: inbox) = (begin_read self, inbox, Done (Some []))
  /\ (request_body self = true ->
      aiter_next self (message :: inbox) = aiter_next (begin_read self) inbox
      /\ aiter_all self (message :: inbox) = aiter_all (begin_read self) inbox)
  /\ (forall (self0 self' : ASGIApp) (inbox0 inbox' : list Message)
             (data : bytes),
        aiter_next self0 inbox0 = (self', inbox', Done (Some data)) ->
        data <> [])
  /\ (forall (self0 : ASGIApp) (inbox0 : list Message),
        Forall (fun d => d <> []) (aiter_all self0 inbox0).1.2).
Proof.
  intros Hempty Hmore.
  assert (Hread : read_message (begin_read self) message
                  = (begin_read self, Some [])).
  { unfold read_message. by rewrite Hempty, Hmore. }
  split; [|split; [|split]].
  - unfold read. by rewrite Hread.
  - intros Hbody. split.
    + cbn. by rewrite Hbody, Hread.
    + cbn. rewrite Hbody, Hread. by destruct (aiter_all _ _) as [[[? ?] ?] ?].
  - intros self0 self' inbox0 inbox' data. apply aiter_next_yields_nonempty.
  - intros self0 inbox0. apply aiter_all_chunks_nonempty.
Qed.

Lemma aiter_skips_empty_chunk_witness :
  aiter_all instance_dup [message_empty; message_abc; message_def]
  = aiter_all (set_stage REQUEST instance_dup) [message_abc; message_def].
Proof.
  apply (aiter_skips_empty_chunk instance_dup message_empty
           [message_abc; message_def] eq_refl eq_refl).
  reflexivity.
Defined.

(** ** The response *)

(** C3. In the stage HANDLER, with another response pending, [respond]
    does not raise: it clears the stream link of the pending response,
    links the new response to the adapter and makes it the pending one;
    the links of all other responses and the messages sent stay as they
    are.  In any other stage it sets the stage to FAILED and raises
    [RuntimeError("Response already started")], and changes nothing
    else. *)
Theorem respond_in_and_out_of_handler
  (self : ASGIApp) (w : World) (old new : BaseHTTPResponse) :
  (stage self = HANDLER ->
   response self = Some old ->
   response_id old <> response_id new ->
   exists w' : World,
     respond new (self, w) = ((set_response (Some new) self, w'), Done new)
     /\ stage (set_response (Some new) self) = HANDLER
     /\ streams w' !! response_id old = None
     /\ streams w' !! response_id new = Some (self_id self)
     /\ (forall k, k <> response_id old -> k <> response_id new ->
                   streams w' !! k = streams w !! k)
     /\ outbox w' = outbox w)
  /\ (stage self <> HANDLER ->
      respond new (self, w)
      = ((set_stage FAILED self, w),
         Raise (RuntimeError "Response already started"))).
Proof.
  split.
  - intros Hstage Hold Hne. unfold respond. rewrite Hstage, Hold. cbn.
    eexists. split; [reflexivity|]. cbn.
    split; [done|]. split; [|split; [|split]].
    + rewrite lookup_insert_ne by done. apply lookup_delete_eq.
    + apply lookup_insert_eq.
    + intros k Hk1 Hk2. rewrite lookup_insert_ne by done.
      by rewrite lookup_delete_ne.
    + done.
  - intros Hstage. unfold respond.
    by rewrite bool_decide_eq_false_2.
Qed.

Lemma respond_in_and_out_of_handler_witness :
  (exists w' : World,
     respond response_other
       (set_response (Some response_200) (set_stage HANDLER instance_dup),
        world_new)
     = ((set_response (Some response_other) (set_stage HANDLER instance_dup),
         w'), Done response_other)
     /\ streams w' !! 7%positive = None
     /\ streams w' !! 8%positive = Some 1%positive)
  /\ respond response_other (instance_dup, world_new)
     = ((set_stage FAILED instance_dup, world_new),
        Raise (RuntimeError "Response already started")).
Proof.
  split.
  - destruct (proj1 (respond_in_and_out_of_handler
                       (set_response (Some response_200)
                          (set_stage HANDLER instance_dup))
                       world_new response_200 response_other)
                eq_refl eq_refl ltac:(discriminate))
      as (w' & Hrespond & _ & Hold & Hnew & _).
    exists w'. split; [exact Hrespond|]. split; [exact Hold|exact Hnew].
  - apply (proj2 (respond_in_and_out_of_handler instance_dup world_new
                    response_200 response_other)).
    discriminate.
Defined.

(** The pending response carries the body [b"X"]: the first body message
    is [b"Xhello"], not [b"hello"]. *)
Lemma two_chunk_response_with_body :
  outbox (world (run_operations
                   [op_call; op_respond response_200_body;
                    op_send (Bytes (b "hello")) false;
                    op_send (Bytes (b "world")) true] conn_new))
  = [http_response_start 200 [(b "content-type", b "text/plain")];
     http_response_body (b "Xhello") true;
     http_response_body (b "world") false]
  /\ outbox (world (run_operations
                      [op_call; op_respond response_200_body;
                       op_send (Bytes (b "hello")) false;
                       op_send (Bytes (b "world")) true] conn_new))
     <> [http_response_start 200 [(b "content-type", b "text/plain")];
         http_response_body (b "hello") true;
         http_response_body (b "world") false].
Proof.
  split; [reflexivity|]. intros H. vm_compute in H. discriminate H.
Qed.

(** C2, as the code has it.  With a pending response of status 200 that
    has no body of its own (none, or an empty one), [send(b"hello",
    False)] and then [send(b"world", True)] give to the send channel the
    start message with the status and the headers of the response, the
    body message of [b"hello"] with more to come and the body message of
    [b"world"] with no more to come, in this order and nothing else; the
    stage is IDLE afterwards and no response is pending. *)
Theorem send_two_chunks (self : ASGIApp) (w : World) (resp : BaseHTTPResponse) :
  response self = Some resp ->
  status resp = 200%Z ->
  truthy (default [] (body resp)) = false ->
  exists (self' : ASGIApp) (w' : World),
    send_hello_world (self, w) = ((self', w'), Done tt)
    /\ outbox w'
       = outbox w
         ++ [http_response_start 200 (processed_headers resp);
             http_response_body (b "hello") true;
             http_response_body (b "world") false]
    /\ stage self' = IDLE
    /\ response self' = None
    /\ streams w' = streams w.
Proof.
  intros Hresp Hstatus Hbody.
  unfold send_hello_world, bind, send. cbn. rewrite Hresp, Hbody, Hstatus. cbn.
  eexists _, _. split; [reflexivity|]. cbn.
  rewrite <- !app_assoc. done.
Qed.

Lemma send_two_chunks_witness :
  exists (self' : ASGIApp) (w' : World),
    send_hello_world
      (set_response (Some response_200) (set_stage HANDLER instance_dup),
       world_new)
    = ((self', w'), Done tt)
    /\ outbox w'
       = [http_response_start 200 [(b "content-type", b "text/plain")];
          http_response_body (b "hello") true;
          http_response_body (b "world") false]
    /\ stage self' = IDLE.
Proof.
  destruct (send_two_chunks
              (set_response (Some response_200) (set_stage HANDLER instance_dup))
              world_new response_200 eq_refl eq_refl eq_refl)
    as (self' & w' & Hsend & Hout & Hstage & _).
  exists self', w'. split; [exact Hsend|]. split; [exact Hout|exact Hstage].
Defined.

(** ** The stage *)

Lemma stage_aiter_next (inbox : list Message) :
  forall self : ASGIApp,
    stage (aiter_next self inbox).1.1
    = if request_body self then stage (begin_read self) else stage self.
Proof.
  induction inbox as [|message inbox IH]; intros self; cbn.
  - by destruct (request_body self).
  - destruct (request_body self); [|done].
    pose proof (stage_read_message (begin_read self) message) as Hstage.
    destruct (read_message _ _) as [self1 d]. cbn in Hstage.
    destruct (data_truthy d); [done|].
    rewrite IH, stage_begin_read, Hstage.
    destruct (request_body self1); [|done].
    case_decide as Hidle; [|done].
    rewrite stage_begin_read in Hidle. by case_decide.
Qed.

Lemma stage_respond (new : BaseHTTPResponse) (self : ASGIApp) (w : World) :
  stage (respond new (self, w)).1.1
  = if decide (stage self = HANDLER) then HANDLER else FAILED.
Proof.
  unfold respond. case_decide as Hstage.
  - rewrite bool_decide_eq_true_2 by done. cbn. done.
  - by rewrite bool_decide_eq_false_2.
Qed.

Lemma stage_send (data : payload) (end_stream : bool) (self : ASGIApp) (w : World) :
  stage (send data end_stream (self, w)).1.1
  = if end_stream then IDLE else RESPONSE.
Proof.
  unfold send, send_body, prepend_body. cbn.
  destruct (response self) as [resp|]; cbn.
  - destruct (truthy (default [] (body resp))).
    + destruct (payload_truthy data), data as [d|d]; cbn; try done;
        destruct (encode_payload _); done.
    + destruct (encode_payload data); done.
  - destruct (encode_payload data); done.
Qed.

(** The adapter has answered in two parts and the handler calls [respond]
    again: FAILED is entered from RESPONSE; the next [send] leaves it.
    The invariant of the data model does not hold of these stages, nor
    of those of a [respond] on a new adapter. *)
Lemma stage_leaves_data_model :
  stages [op_call; op_respond response_200; op_send (Bytes (b "hello")) false;
          op_respond response_other; op_send (Bytes (b "world")) true] conn_new
  = [IDLE; HANDLER; HANDLER; RESPONSE; FAILED; IDLE]
  /\ follows_data_model [IDLE; HANDLER; HANDLER; RESPONSE; FAILED; IDLE] = false
  /\ transition_in_data_model RESPONSE FAILED = false
  /\ transition_in_data_model FAILED IDLE = false
  /\ stages [op_respond response_200] conn_new = [IDLE; FAILED]
  /\ ~ (forall (ops : list Operation) (c : Conn),
          follows_data_model (stages ops c) = true).
Proof.
  split; [reflexivity|]. split; [reflexivity|]. split; [reflexivity|].
  split; [reflexivity|]. split; [reflexivity|].
  intros H. specialize (H [op_respond response_200] conn_new).
  discriminate H.
Qed.

(** C1, as the code has it.  The stage after an operation depends on the
    operation and on the stage before as follows.  [read], and a
    resumption of the iteration that still expects a body, move IDLE to
    REQUEST and leave any other stage as it is.  [__call__] sets HANDLER,
    whatever the stage.  [send] sets RESPONSE when more is to follow and
    IDLE on the last chunk, whatever the stage, FAILED included.
    [respond] leaves HANDLER as it is and sets FAILED in every other
    stage.  So FAILED is entered by [respond] outside HANDLER only, and
    it is not terminal. *)
Theorem stage_after_operation (o : Operation) (c : Conn) :
  stage (app (run_operation o c))
  = match o with
    | op_read =>
        if decide (stage (app c) = IDLE) then REQUEST else stage (app c)
    | op_aiter_next =>
        if request_body (app c)
        then if decide (stage (app c) = IDLE) then REQUEST else stage (app c)
        else stage (app c)
    | op_respond _ =>
        if decide (stage (app c) = HANDLER) then HANDLER else FAILED
    | op_send _ end_stream => if end_stream then IDLE else RESPONSE
    | op_call => HANDLER
    end.
Proof.
  destruct o as [| |new|data end_stream|]; unfold run_operation.
  - unfold read. rewrite <- stage_begin_read.
    destruct (inbox c) as [|message inbox']; [done|].
    pose proof (stage_read_message (begin_read (app c)) message) as Hstage.
    destruct (read_message _ _) as [self d]. by cbn in *.
  - pose proof (stage_aiter_next (inbox c) (app c)) as Hstage.
    destruct (aiter_next _ _) as [[self inbox'] r]. cbn in *.
    by rewrite Hstage, stage_begin_read.
  - pose proof (stage_respond new (app c) (world c)) as Hstage.
    destruct (respond _ _) as [[self w] r]. by cbn in *.
  - pose proof (stage_send data end_stream (app c) (world c)) as Hstage.
    destruct (send _ _ _) as [[self w] r]. by cbn in *.
  - done.
Qed.

(** ** The lifespan loop *)

Section LifespanFacts.
Context {E X : Type}.
Variable str : E -> string.
Variable _startup : coro X E unit.
Variable _server_event : string -> string -> coro X E unit.
Variable USE_UVLOOP_is_Default : X -> bool.

Lemma startup_raises (self : Lifespan E X) (x1 : X) (e : E) :
  startup_step_raises _startup _server_event (sanic_app self) x1 e ->
  startup _startup _server_event USE_UVLOOP_is_Default self
  = ({| sanic_app := x1; lifespan_sent := lifespan_sent self;
        error_log := error_log self; warnings := warnings self |}, Raise e).
Proof.
  unfold startup, bind, on_app.
  intros [H1|[(xa & H1 & H2)|(xa & xb & H1 & H2 & H3)]].
  - by rewrite H1.
  - rewrite H1. cbn. by rewrite H2.
  - rewrite H1. cbn. rewrite H2. cbn. by rewrite H3.
Qed.

Lemma startup_completes (self : Lifespan E X) (x3 : X) :
  startup_steps_complete _startup _server_event (sanic_app self) x3 ->
  startup _startup _server_event USE_UVLOOP_is_Default self
  = ({| sanic_app := x3; lifespan_sent := lifespan_sent self;
        error_log := error_log self;
        warnings := warnings self
                    ++ (if USE_UVLOOP_is_Default x3 then [] else [uvloop_warning]) |},
     Done tt).
Proof.
  unfold startup, bind, on_app.
  intros (xa & xb & H1 & H2 & H3).
  rewrite H1. cbn. rewrite H2. cbn. rewrite H3. cbn.
  destruct (USE_UVLOOP_is_Default x3); cbn; [|done].
  by rewrite app_nil_r.
Qed.
End LifespanFacts.

(** C8.  The loop receives ["lifespan.startup"].  When one of the steps
    of the startup ([_startup], the [init.before] listeners, the
    [init.after] listeners) raises [e], the loop logs [e], sends the one
    message ["lifespan.startup.failed"] with [str(e)] and goes on with the
    next message.  When the three steps complete, it sends the one
    message ["lifespan.startup.complete"] and goes on.  A
    ["lifespan.shutdown"] that follows is processed: the loop runs the
    shutdown, reports it and returns. *)
Theorem lifespan_startup_reported
  {E X : Type} (str : E -> string) (_startup : coro X E unit)
  (_server_event : string -> string -> coro X E unit)
  (USE_UVLOOP_is_Default : X -> bool)
  (self : Lifespan E X) (message : LifespanMessage)
  (rest : list LifespanMessage) :
  lifespan_type message = "lifespan.startup" ->
  (forall (x1 : X) (e : E),
     startup_step_raises _startup _server_event (sanic_app self) x1 e ->
     Lifespan_call str _startup _server_event USE_UVLOOP_is_Default
       (message :: rest) self
     = Lifespan_call str _startup _server_event USE_UVLOOP_is_Default rest
         {| sanic_app := x1;
            lifespan_sent :=
              lifespan_sent self
              ++ [lifespan_failed "lifespan.startup.failed" (str e)];
            error_log := error_log self ++ [e];
            warnings := warnings self |})
  /\ (forall x3 : X,
        startup_steps_complete _startup _server_event (sanic_app self) x3 ->
        Lifespan_call str _startup _server_event USE_UVLOOP_is_Default
          (message :: rest) self
        = Lifespan_call str _startup _server_event USE_UVLOOP_is_Default rest
            {| sanic_app := x3;
               lifespan_sent :=
                 lifespan_sent self ++ [lifespan_plain "lifespan.startup.complete"];
               error_log := error_log self;
               warnings :=
                 warnings self
                 ++ (if USE_UVLOOP_is_Default x3 then [] else [uvloop_warning]) |})
  /\ (forall (self' : Lifespan E X) (message' : LifespanMessage)
             (rest' : list LifespanMessage),
        lifespan_type message' = "lifespan.shutdown" ->
        Lifespan_call str _startup _server_event USE_UVLOOP_is_Default
          (message' :: rest') self'
        = ((report str (shutdown _server_event) "lifespan.shutdown.failed"
              "lifespan.shutdown.complete" self').1,
           rest',
           (report str (shutdown _server_event) "lifespan.shutdown.failed"
              "lifespan.shutdown.complete" self').2)).
Proof.
  intros Htype. split; [|split].
  - intros x1 e Hraise. cbn. rewrite decide_True by done.
    unfold report.
    rewrite (startup_raises _ _ USE_UVLOOP_is_Default self x1 e Hraise).
    reflexivity.
  - intros x3 Hdone. cbn. rewrite decide_True by done.
    unfold report.
    rewrite (startup_completes _ _ USE_UVLOOP_is_Default self x3 Hdone).
    reflexivity.
  - intros self' message' rest' Htype'. cbn.
    rewrite decide_False by (rewrite Htype'; discriminate).
    rewrite decide_True by done.
    by destruct (report _ _ _ _ _).
Qed.

(** The [init.after] listener raises ["boom"]: one failure message, and
    the shutdown that follows is answered. *)
Lemma lifespan_startup_reported_witness :
  Lifespan_call id startup_recorded server_event_recorded (fun _ => true)
    [lifespan_plain "lifespan.startup"; lifespan_plain "lifespan.shutdown"]
    lifespan_new
  = Lifespan_call id startup_recorded server_event_recorded (fun _ => true)
      [lifespan_plain "lifespan.shutdown"]
      {| sanic_app := ["_startup"; "init.before"; "init.after"];
         lifespan_sent := [lifespan_failed "lifespan.startup.failed" "boom"];
         error_log := ["boom"]; warnings := [] |}
  /\ Lifespan_call id startup_recorded server_event_recorded (fun _ => true)
       [lifespan_plain "lifespan.startup"; lifespan_plain "lifespan.shutdown"]
       lifespan_new
     = ({| sanic_app := ["_startup"; "init.before"; "init.after";
                         "shutdown.before"; "shutdown.after"];
           lifespan_sent := [lifespan_failed "lifespan.startup.failed" "boom";
                             lifespan_plain "lifespan.shutdown.complete"];
           error_log := ["boom"]; warnings := [] |}, [], Done tt).
Proof.
  split; [|reflexivity].
  refine (proj1 (lifespan_startup_reported id startup_recorded
                   server_event_recorded (fun _ => true) lifespan_new
                   (lifespan_plain "lifespan.startup")
                   [lifespan_plain "lifespan.shutdown"] eq_refl)
            ["_startup"; "init.before"; "init.after"] "boom" _).
  right. right. exists ["_startup"], ["_startup"; "init.before"].
  split; [reflexivity|]. split; reflexivity.
Defined.

(** ** The top-level invocation *)

(** C9.  [handle_request] raises [e].  Then [handle_exception(request, e)]
    is called, once; when it does not raise, nothing else is called.
    When it raises [exc], [handle_exception(request, exc, False)] is
    called, once, and [__call__] ends as this call ends: an exception
    that it raises is the exception that [__call__] raises. *)
Theorem call_handles_exception
  {E X : Type} (handle_request : Request -> coro (Conn * X) E unit)
  (handle_exception : Request -> E -> option bool -> coro (Conn * X) E unit)
  (c : Conn) (x : X) (s1 : Conn * X) (e : E) :
  handle_request (request (app c)) (enter_handler c, x) = (s1, Raise e) ->
  (forall (s2 : Conn * X) (r : outcome E unit),
     handle_exception (request (app s1.1)) e None s1 = (s2, r) ->
     (forall exc, r <> Raise exc) ->
     ASGIApp_call handle_request handle_exception c x
     = (s2,
        [handle_request_called (request (app c));
         handle_exception_called (request (app s1.1)) e None],
        r))
  /\ (forall (s2 s3 : Conn * X) (exc : E) (r : outcome E unit),
        handle_exception (request (app s1.1)) e None s1 = (s2, Raise exc) ->
        handle_exception (request (app s2.1)) exc (Some false) s2 = (s3, r) ->
        ASGIApp_call handle_request handle_exception c x
        = (s3,
           [handle_request_called (request (app c));
            handle_exception_called (request (app s1.1)) e None;
            handle_exception_called (request (app s2.1)) exc (Some false)],
           r)).
Proof.
  intros Hrequest. unfold ASGIApp_call.
  change (request (app (enter_handler c))) with (request (app c)).
  rewrite Hrequest. destruct s1 as [c1 x1]. cbn [fst].
  split.
  - intros s2 r Hexc Hr. cbn in Hexc. rewrite Hexc.
    destruct s2 as [c2 x2]. destruct r as [[]|exc|]; [done| |done].
    by destruct (Hr exc).
  - intros [c2 x2] s3 exc r Hexc Hagain. cbn in Hexc, Hagain.
    rewrite Hexc. cbn [fst]. by rewrite Hagain.
Qed.

Lemma call_handles_exception_witness :
  ASGIApp_call handle_request_boom handle_exception_boom conn_new tt
  = ((enter_handler conn_new, tt),
     [handle_request_called request_dup;
      handle_exception_called request_dup "boom" None;
      handle_exception_called request_dup "again" (Some false)],
     Raise "fatal").
Proof.
  refine (proj2 (call_handles_exception handle_request_boom
                   handle_exception_boom conn_new tt (enter_handler conn_new, tt)
                   "boom" eq_refl)
            (enter_handler conn_new, tt) (enter_handler conn_new, tt) "again"
            (Raise "fatal") eq_refl eq_refl).
Defined.

(** * Further properties *)

(** ** The lifespan loop, further *)

Section LifespanFurther.
Context {E X : Type}.
Variable str : E -> string.
Variable _startup : coro X E unit.
Variable _server_event : string -> string -> coro X E unit.
Variable USE_UVLOOP_is_Default : X -> bool.

Local Abbreviation loop :=
  (Lifespan_call str _startup _server_event USE_UVLOOP_is_Default).
Local Abbreviation startup' :=
  (startup _startup _server_event USE_UVLOOP_is_Default).
Local Abbreviation shutdown' := (shutdown _server_event).

(** What [report] does, by the way its body ends. *)
Lemma report_cases (body : coro (Lifespan E X) E unit) (failed complete : string)
  (self : Lifespan E X) :
  match body self with
  | (self', Done _) =>
      report str body failed complete self
      = ({| sanic_app := sanic_app self';
            lifespan_sent := lifespan_sent self' ++ [lifespan_plain complete];
            error_log := error_log self'; warnings := warnings self' |}, Done tt)
  | (self', Raise e) =>
      report str body failed complete self
      = ({| sanic_app := sanic_app self';
            lifespan_sent :=
              lifespan_sent self' ++ [lifespan_failed failed (str e)];
            error_log := error_log self' ++ [e]; warnings := warnings self' |},
         Done tt)
  | (self', Pending) => report str body failed complete self = (self', Pending)
  end.
Proof.
  unfold report. by destruct (body self) as [self' [[]|e|]].
Qed.

Lemma report_not_Raise (body : coro (Lifespan E X) E unit)
  (failed complete : string) (self : Lifespan E X) (e : E) :
  (report str body failed complete self).2 <> Raise e.
Proof.
  pose proof (report_cases body failed complete self) as H.
  destruct (body self) as [self' [[]|e'|]]; by rewrite H.
Qed.

Lemma on_app_sent (m : coro X E unit) (self : Lifespan E X) :
  lifespan_sent (on_app m self).1 = lifespan_sent self.
Proof. unfold on_app. by destruct (m _). Qed.

Lemma startup_sent (self : Lifespan E X) :
  lifespan_sent (startup' self).1 = lifespan_sent self.
Proof.
  unfold startup, bind.
  pose proof (on_app_sent _startup self) as H1.
  destruct (on_app _startup self) as [s1 [[]|e|]]; [|done..].
  pose proof (on_app_sent (_server_event "init" "before") s1) as H2.
  destruct (on_app (_server_event "init" "before") s1) as [s2 [[]|e|]];
    [|cbn in *; congruence..].
  pose proof (on_app_sent (_server_event "init" "after") s2) as H3.
  destruct (on_app (_server_event "init" "after") s2) as [s3 [[]|e|]];
    [|cbn in *; congruence..].
  cbn in *. destruct (negb _); cbn; congruence.
Qed.

Lemma shutdown_sent (self : Lifespan E X) :
  lifespan_sent (shutdown' self).1 = lifespan_sent self.
Proof.
  unfold shutdown, bind.
  pose proof (on_app_sent (_server_event "shutdown" "before") self) as H1.
  destruct (on_app (_server_event "shutdown" "before") self) as [s1 [[]|e|]];
    [|done..].
  pose proof (on_app_sent (_server_event "shutdown" "after") s1) as H2.
  cbn in *. congruence.
Qed.

Lemma on_app_never_hangs (m : coro X E unit) :
  never_hangs m -> never_hangs (on_app m).
Proof.
  intros Hm self. unfold on_app. specialize (Hm (sanic_app self)).
  by destruct (m _).
Qed.

Lemma startup_never_hangs :
  never_hangs _startup -> (forall c a, never_hangs (_server_event c a)) ->
  never_hangs startup'.
Proof.
  intros H0 Hev self. unfold startup, bind.
  pose proof (on_app_never_hangs _ H0 self) as H1.
  destruct (on_app _startup self) as [s1 [[]|e|]]; [|done..].
  pose proof (on_app_never_hangs _ (Hev "init" "before") s1) as H2.
  destruct (on_app (_server_event "init" "before") s1) as [s2 [[]|e|]];
    [|done..].
  pose proof (on_app_never_hangs _ (Hev "init" "after") s2) as H3.
  destruct (on_app (_server_event "init" "after") s2) as [s3 [[]|e|]];
    [|done..].
  by destruct (negb _).
Qed.

Lemma shutdown_never_hangs :
  (forall c a, never_hangs (_server_event c a)) -> never_hangs shutdown'.
Proof.
  intros Hev self. unfold shutdown, bind.
  pose proof (on_app_never_hangs _ (Hev "shutdown" "before") self) as H1.
  destruct (on_app (_server_event "shutdown" "before") self) as [s1 [[]|e|]];
    [|done..].
  apply (on_app_never_hangs _ (Hev "shutdown" "after")).
Qed.

(** X2.  The loop returns on a shutdown message only.  When it returns,
    the messages before the one it stopped at were no shutdown messages,
    the one it stopped at is one, and every message after it is left in
    the channel.  With no shutdown message among those that arrive, the
    loop does not return. *)
Theorem lifespan_returns_on_shutdown_only (inbox : list LifespanMessage) :
  forall self : Lifespan E X,
    (forall self' rest,
       loop inbox self = (self', rest, Done tt) ->
       exists before message,
         inbox = before ++ message :: rest
         /\ lifespan_type message = "lifespan.shutdown"
         /\ Forall (fun m => lifespan_type m <> "lifespan.shutdown") before)
    /\ (Forall (fun m => lifespan_type m <> "lifespan.shutdown") inbox ->
        (loop inbox self).2 = Pending).
Proof.
  induction inbox as [|message inbox IH]; intros self.
  - split; [done|]. done.
  - cbn [Lifespan_call]. split.
    + intros self' rest. repeat case_decide.
      * destruct (report _ _ _ _ _) as [self1 [[]|e'|]]; [|done..].
        intros Hloop. destruct (proj1 (IH self1) self' rest Hloop)
          as (before & m & -> & Hm & Hbefore).
        exists (message :: before), m. split; [done|]. split; [done|].
        constructor; [|done]. congruence.
      * destruct (report _ _ _ _ _) as [self1 r]. intros [= <- <- ->].
        by exists [], message.
      * intros Hloop. destruct (proj1 (IH self) self' rest Hloop)
          as (before & m & -> & Hm & Hbefore).
        exists (message :: before), m. split; [done|]. split; [done|].
        by constructor.
    + intros Hall. apply Forall_cons in Hall as [Hm Hall].
      repeat case_decide; try done.
      * pose proof (report_not_Raise startup' "lifespan.startup.failed"
                      "lifespan.startup.complete" self) as Hr.
        destruct (report _ _ _ _ _) as [self1 [[]|e'|]].
        -- by apply IH.
        -- by destruct (Hr e').
        -- done.
      * by apply IH.
Qed.

Lemma shutdown_raises (self : Lifespan E X) (x1 : X) (e : E) :
  shutdown_step_raises _server_event (sanic_app self) x1 e ->
  shutdown' self
  = ({| sanic_app := x1; lifespan_sent := lifespan_sent self;
        error_log := error_log self; warnings := warnings self |}, Raise e).
Proof.
  unfold shutdown, bind, on_app. intros [H1|(xa & H1 & H2)].
  - by rewrite H1.
  - rewrite H1. cbn. by rewrite H2.
Qed.

Lemma shutdown_completes (self : Lifespan E X) (x2 : X) :
  shutdown_steps_complete _server_event (sanic_app self) x2 ->
  shutdown' self
  = ({| sanic_app := x2; lifespan_sent := lifespan_sent self;
        error_log := error_log self; warnings := warnings self |}, Done tt).
Proof.
  unfold shutdown, bind, on_app. intros (xa & H1 & H2).
  rewrite H1. cbn. by rewrite H2.
Qed.

(** X3.  The loop receives ["lifespan.shutdown"].  When [shutdown.before]
    raises [e], the [shutdown.after] listeners are not run; when one of
    the two raises [e], the loop logs [e] and sends the one message
    ["lifespan.shutdown.failed"] with [str(e)]; when both complete, it
    sends the one message ["lifespan.shutdown.complete"].  In each case
    the loop returns and leaves the later messages in the channel. *)
Theorem lifespan_shutdown_reported
  (self : Lifespan E X) (message : LifespanMessage)
  (rest : list LifespanMessage) :
  lifespan_type message = "lifespan.shutdown" ->
  (forall (x1 : X) (e : E),
     shutdown_step_raises _server_event (sanic_app self) x1 e ->
     loop (message :: rest) self
     = ({| sanic_app := x1;
           lifespan_sent :=
             lifespan_sent self
             ++ [lifespan_failed "lifespan.shutdown.failed" (str e)];
           error_log := error_log self ++ [e];
           warnings := warnings self |}, rest, Done tt))
  /\ (forall x2 : X,
        shutdown_steps_complete _server_event (sanic_app self) x2 ->
        loop (message :: rest) self
        = ({| sanic_app := x2;
              lifespan_sent :=
                lifespan_sent self
                ++ [lifespan_plain "lifespan.shutdown.complete"];
              error_log := error_log self;
              warnings := warnings self |}, rest, Done tt)).
Proof.
  intros Htype. split.
  - intros x1 e Hraise. cbn [Lifespan_call].
    rewrite decide_False by (rewrite Htype; discriminate).
    rewrite decide_True by done.
    unfold report. by rewrite (shutdown_raises self x1 e Hraise).
  - intros x2 Hdone. cbn [Lifespan_call].
    rewrite decide_False by (rewrite Htype; discriminate).
    rewrite decide_True by done.
    unfold report. by rewrite (shutdown_completes self x2 Hdone).
Qed.

(** X4.  When no step of the framework stays suspended, the loop sends
    one reply for each startup and each shutdown message that it has
    taken from the channel, in their order, and nothing else: the reply
    to a message is its completion message or its failure message.  The
    messages of any other type are taken and not answered. *)
Theorem lifespan_one_reply_each :
  never_hangs _startup ->
  (forall c a, never_hangs (_server_event c a)) ->
  forall (inbox : list LifespanMessage) (self : Lifespan E X),
  exists consumed replies : list LifespanMessage,
    inbox = consumed ++ (loop inbox self).1.2
    /\ lifespan_sent (loop inbox self).1.1 = lifespan_sent self ++ replies
    /\ Forall2 answers (List.filter handshake consumed) replies.
Proof.
  intros H0 Hev inbox.
  induction inbox as [|message inbox IH]; intros self.
  - exists [], []. cbn. rewrite app_nil_r. by repeat split.
  - assert (Hnext : forall (s' : Lifespan E X) (reply : LifespanMessage),
              lifespan_sent s' = lifespan_sent self ++ [reply] ->
              answers message reply ->
              handshake message = true ->
              exists consumed replies : list LifespanMessage,
                message :: inbox = consumed ++ (loop inbox s').1.2
                /\ lifespan_sent (loop inbox s').1.1
                   = lifespan_sent self ++ replies
                /\ Forall2 answers (List.filter handshake consumed) replies).
    { intros s' reply Hs' Hreply Hhs.
      destruct (IH s') as (consumed & replies & Hin & Hout & Hans).
      exists (message :: consumed), (reply :: replies).
      split; [by rewrite <- app_comm_cons, <- Hin|].
      split; [by rewrite Hout, Hs', <- app_assoc|].
      cbn. rewrite Hhs. by constructor. }
    cbn [Lifespan_call]. case_decide as Hstart; [|case_decide as Hstop].
    + assert (Hhs : handshake message = true).
      { unfold handshake. by rewrite bool_decide_eq_true_2. }
      pose proof (report_cases startup' "lifespan.startup.failed"
                    "lifespan.startup.complete" self) as Hrep.
      pose proof (startup_sent self) as Hsent.
      pose proof (startup_never_hangs H0 Hev self) as Hhang.
      destruct (startup' self) as [s1 [[]|e|]]; [| |done]; rewrite Hrep;
        cbn in Hsent.
      * apply (Hnext _ (lifespan_plain "lifespan.startup.complete"));
          [by cbn; rewrite Hsent| |done].
        left. by rewrite Hstart.
      * apply (Hnext _ (lifespan_failed "lifespan.startup.failed" (str e)));
          [by cbn; rewrite Hsent| |done].
        right. rewrite Hstart. split; [done|]. by eexists.
    + assert (Hhs : handshake message = true).
      { unfold handshake. rewrite (bool_decide_eq_false_2 _ Hstart).
        by rewrite bool_decide_eq_true_2. }
      pose proof (report_cases shutdown' "lifespan.shutdown.failed"
                    "lifespan.shutdown.complete" self) as Hrep.
      pose proof (shutdown_sent self) as Hsent.
      pose proof (shutdown_never_hangs Hev self) as Hhang.
      destruct (shutdown' self) as [s1 [[]|e|]]; [| |done]; rewrite Hrep;
        cbn in Hsent; cbn [fst snd lifespan_sent]; rewrite Hsent.
      * exists [message], [lifespan_plain "lifespan.shutdown.complete"].
        split; [done|]. split; [done|]. cbn. rewrite Hhs.
        constructor; [|constructor]. left. by rewrite Hstop.
      * exists [message], [lifespan_failed "lifespan.shutdown.failed" (str e)].
        split; [done|]. split; [done|]. cbn. rewrite Hhs.
        constructor; [|constructor]. right. rewrite Hstop.
        split; [done|]. by eexists.
    + destruct (IH self) as (consumed & replies & Hin & Hout & Hans).
      exists (message :: consumed), replies.
      split; [by rewrite <- app_comm_cons, <- Hin|]. split; [done|].
      cbn. unfold handshake at 1.
      by rewrite (bool_decide_eq_false_2 _ Hstart), (bool_decide_eq_false_2 _ Hstop).
Qed.
End LifespanFurther.

Lemma lifespan_returns_on_shutdown_only_witness :
  (Lifespan_call id startup_recorded server_event_recorded (fun _ => true)
     [lifespan_plain "lifespan.startup"; lifespan_plain "lifespan.ping"]
     lifespan_new).2
  = Pending.
Proof.
  apply (proj2 (lifespan_returns_on_shutdown_only id startup_recorded
                  server_event_recorded (fun _ => true)
                  [lifespan_plain "lifespan.startup";
                   lifespan_plain "lifespan.ping"] lifespan_new)).
  repeat constructor; discriminate.
Defined.

Lemma lifespan_shutdown_reported_witness :
  Lifespan_call id startup_recorded server_event_stop (fun _ => true)
    [lifespan_plain "lifespan.shutdown"; lifespan_plain "lifespan.startup"]
    lifespan_new
  = ({| sanic_app := ["shutdown.before"];
        lifespan_sent := [lifespan_failed "lifespan.shutdown.failed" "stop"];
        error_log := ["stop"]; warnings := [] |},
     [lifespan_plain "lifespan.startup"], Done tt).
Proof.
  apply (proj1 (lifespan_shutdown_reported id startup_recorded
                  server_event_stop (fun _ => true) lifespan_new
                  (lifespan_plain "lifespan.shutdown")
                  [lifespan_plain "lifespan.startup"] eq_refl)).
  left. reflexivity.
Defined.

Lemma lifespan_one_reply_each_witness :
  exists consumed replies : list LifespanMessage,
    [lifespan_plain "lifespan.ping"; lifespan_plain "lifespan.startup";
     lifespan_plain "lifespan.shutdown"; lifespan_plain "lifespan.startup"]
    = consumed
      ++ (Lifespan_call id startup_recorded server_event_recorded
            (fun _ => true)
            [lifespan_plain "lifespan.ping"; lifespan_plain "lifespan.startup";
             lifespan_plain "lifespan.shutdown";
             lifespan_plain "lifespan.startup"] lifespan_new).1.2
    /\ lifespan_sent
         (Lifespan_call id startup_recorded server_event_recorded
            (fun _ => true)
            [lifespan_plain "lifespan.ping"; lifespan_plain "lifespan.startup";
             lifespan_plain "lifespan.shutdown";
             lifespan_plain "lifespan.startup"] lifespan_new).1.1
       = lifespan_sent lifespan_new ++ replies
    /\ Forall2 answers (List.filter handshake consumed) replies.
Proof.
  apply (lifespan_one_reply_each id startup_recorded server_event_recorded
           (fun _ => true)).
  - intros s. discriminate.
  - intros c a s. unfold server_event_recorded.
    destruct (decide (c = "init" /\ a = "after")); discriminate.
Defined.

(** ** Construction, further *)

(** X5.  A scope that is neither ["http"] nor ["websocket"]: [create]
    raises [ServerError("Received unknown ASGI scope")] when the header
    names are ASCII, and [BadRequest] when one is not (the headers are
    decoded first).  In both cases no request is bound and no signal is
    dispatched. *)
Theorem create_unknown_scope
  {E : Type}
  (request_class :
     bytes -> list (pystr * pystr) -> string -> string -> option exn)
  (dispatch : string -> Request -> option E)
  (scope : ASGIScope) (addr : positive) (ctx : AppContext) :
  scope_type scope <> "http" ->
  scope_type scope <> "websocket" ->
  (Forall (fun kv => is_ascii kv.1) (default [] (scope_headers scope)) ->
   create request_class dispatch scope addr ctx
   = (started ctx, Raise (inl (ServerError "Received unknown ASGI scope"))))
  /\ (Exists (fun kv => non_ascii kv.1) (default [] (scope_headers scope)) ->
      create request_class dispatch scope addr ctx
      = (started ctx,
         Raise (inl (BadRequest
                       "Header names can only contain US-ASCII characters")))).
Proof.
  intros Hhttp Hws. split.
  - intros Hok. unfold create, scope_kind. rewrite (decode_headers_Some _ Hok).
    by rewrite !decide_False by done.
  - intros Hbad. unfold create. by rewrite (decode_headers_non_ascii _ Hbad).
Qed.

Lemma create_unknown_scope_witness :
  create request_class_ok (fun _ _ => @None unit) scope_unknown 1%positive
    ctx_new
  = (started ctx_new,
     Raise (inl (BadRequest
                   "Header names can only contain US-ASCII characters"))).
Proof.
  apply (proj2 (create_unknown_scope request_class_ok
                  (fun _ _ => @None unit) scope_unknown
                  1%positive ctx_new ltac:(discriminate) ltac:(discriminate))).
  apply Exists_cons_hd. cbn.
  apply Exists_cons_tl, Exists_cons_hd. vm_compute. discriminate.
Defined.

(** X6.  A created adapter comes from an ["http"] or a ["websocket"]
    scope.  For ["http"] the request has the version and the method of
    the scope and the adapter has no websocket connection; for
    ["websocket"] the request is an HTTP/1.1 GET, whatever the scope
    declares, and the adapter has a websocket connection. *)
Theorem create_scope_kind
  {E : Type}
  (request_class :
     bytes -> list (pystr * pystr) -> string -> string -> option exn)
  (dispatch : string -> Request -> option E)
  (scope : ASGIScope) (addr : positive) (ctx ctx' : AppContext)
  (instance : ASGIApp) :
  create request_class dispatch scope addr ctx = (ctx', Done instance) ->
  (scope_type scope = "http"
   /\ ws instance = None
   /\ version (request instance) = scope_http_version scope
   /\ method (request instance) = scope_method scope)
  \/ (scope_type scope = "websocket"
      /\ ws instance = Some websocket_connection
      /\ version (request instance) = "1.1"
      /\ method (request instance) = "GET").
Proof.
  intros Hcreate.
  destruct (create_Done _ _ _ _ _ _ _ Hcreate)
    as (hdrs & version & method & ws & _ & Hkind & _ & _ & -> & _).
  revert Hkind. unfold scope_kind.
  repeat case_decide; intros [= <- <- <-]; [by left|by right].
Qed.

Lemma create_scope_kind_witness :
  (scope_type scope_websocket = "http"
   /\ ws instance_websocket = None
   /\ version (request instance_websocket) = scope_http_version scope_websocket
   /\ method (request instance_websocket) = scope_method scope_websocket)
  \/ (scope_type scope_websocket = "websocket"
      /\ ws instance_websocket = Some websocket_connection
      /\ version (request instance_websocket) = "1.1"
      /\ method (request instance_websocket) = "GET").
Proof.
  apply (create_scope_kind request_class_ok (fun _ _ => @None unit)
           scope_websocket 1%positive
           ctx_new
           {| is_started := true; _current := Some request_websocket;
              dispatched := [("http.lifecycle.request", request_websocket)] |}
           instance_websocket eq_refl).
Defined.

Lemma before_question_mark_app (path rest : bytes) :
  ~ In "?"%byte path ->
  before_question_mark (path ++ "?"%byte :: rest) = path.
Proof.
  induction path as [|c path IH]; intros Hnot; cbn.
  - done.
  - destruct (Byte.eqb c "?") eqn:Hc.
    + apply Byte.byte_dec_bl in Hc as ->. destruct Hnot. by left.
    + rewrite IH; [done|]. intros Hin. apply Hnot. by right.
Qed.

Lemma before_question_mark_no_question_mark (raw : bytes) :
  ~ In "?"%byte (before_question_mark raw).
Proof.
  destruct (before_question_mark_split raw) as (rest & _ & Hnot & _). done.
Qed.

(** X7.  The request target is stable.  Computing it again from its own
    result changes nothing, so that a query string is not appended
    twice; a raw path that already is a path, [?] and the query string
    (the way httpx sends it) is the target as it stands; with an empty
    query string the raw path is the target, byte for byte; and the part
    of the target before its first [?] is the one of the raw path. *)
Theorem request_target_stable (raw query : bytes) :
  request_target (request_target raw query) query = request_target raw query
  /\ (forall path : bytes,
        ~ In "?"%byte path ->
        request_target (path ++ b "?" ++ query) query = path ++ b "?" ++ query)
  /\ (query = [] -> request_target raw query = raw)
  /\ (query <> [] ->
      before_question_mark (request_target raw query)
      = before_question_mark raw).
Proof.
  assert (Hcut : forall q : bytes,
            before_question_mark (before_question_mark raw ++ b "?" ++ q)
            = before_question_mark raw).
  { intros q. apply before_question_mark_app,
      before_question_mark_no_question_mark. }
  split; [|split; [|split]].
  - unfold request_target. destruct query as [|c query]; [done|].
    cbn [truthy]. by rewrite Hcut.
  - intros path Hpath. unfold request_target.
    destruct query as [|c query]; [done|]. cbn [truthy].
    change (b "?" ++ c :: query) with ("?"%byte :: c :: query).
    by rewrite before_question_mark_app.
  - by intros ->.
  - intros Hq. unfold request_target. destruct query; [done|]. apply Hcut.
Qed.

Lemma request_target_stable_witness :
  request_target (b "/a" ++ b "?" ++ b "x=1") (b "x=1")
  = b "/a" ++ b "?" ++ b "x=1".
Proof.
  apply (proj1 (proj2 (request_target_stable (b "/a") (b "x=1")))).
  intros Hin. vm_compute in Hin. intuition discriminate.
Defined.

(** X8.  What [create] leaves behind.  When it returns an adapter, the
    application is marked as started, the request of the adapter is the
    current request, the one signal ["http.lifecycle.request"] has been
    dispatched with it, and the request and the adapter refer to each
    other.  When the dispatch raises, [create] raises the same exception,
    and the request stays bound as the current request all the same. *)
Theorem create_binds_request
  {E : Type}
  (request_class :
     bytes -> list (pystr * pystr) -> string -> string -> option exn)
  (dispatch : string -> Request -> option E)
  (scope : ASGIScope) (addr : positive) (ctx : AppContext) :
  (forall ctx' instance,
     create request_class dispatch scope addr ctx = (ctx', Done instance) ->
     ctx' = {| is_started := true; _current := Some (request instance);
               dispatched :=
                 dispatched ctx
                 ++ [("http.lifecycle.request", request instance)] |}
     /\ stream (request instance) = Some (self_id instance)
     /\ self_id instance = addr
     /\ dispatch "http.lifecycle.request" (request instance) = None)
  /\ (forall ctx' e,
        create request_class dispatch scope addr ctx = (ctx', Raise (inr e)) ->
        exists req : Request,
          ctx' = {| is_started := true; _current := Some req;
                    dispatched :=
                      dispatched ctx ++ [("http.lifecycle.request", req)] |}
          /\ stream req = Some addr
          /\ dispatch "http.lifecycle.request" req = Some e).
Proof.
  split.
  - intros ctx' instance Hcreate.
    destruct (create_Done _ _ _ _ _ _ _ Hcreate)
      as (hdrs & version & method & ws & _ & _ & _ & Hd & -> & ->).
    done.
  - intros ctx' e. unfold create.
    destruct (decode_headers _) as [hdrs|]; [|done].
    destruct (scope_kind scope) as [[[version method] ws]|]; [|done].
    destruct (request_class _ _ _ _); [done|].
    destruct (dispatch _ _) eqn:Hd; intros [= <- <-]. eauto.
Qed.

Lemma create_binds_request_witness :
  exists req : Request,
    {| is_started := true; _current := Some request_dup;
       dispatched := [("http.lifecycle.request", request_dup)] |}
    = {| is_started := true; _current := Some req;
         dispatched := dispatched ctx_new ++ [("http.lifecycle.request", req)] |}
    /\ stream req = Some 1%positive
    /\ dispatch_fails "http.lifecycle.request" req = Some "observer failed".
Proof.
  apply (proj2 (create_binds_request request_class_ok dispatch_fails
                  scope_dup 1%positive
                  ctx_new)
           {| is_started := true; _current := Some request_dup;
              dispatched := [("http.lifecycle.request", request_dup)] |}
           "observer failed" eq_refl).
Defined.

Lemma decode_surrogateescape_ascii (value : bytes) :
  is_ascii value -> decode_surrogateescape value = map Byte.to_N value.
Proof.
  induction 1 as [|c value Hc _ IH]; [done|].
  cbn. apply N.ltb_lt in Hc. by rewrite Hc, IH.
Qed.

Lemma create_decoded_headers
  {E : Type}
  (request_class :
     bytes -> list (pystr * pystr) -> string -> string -> option exn)
  (dispatch : string -> Request -> option E)
  (scope : ASGIScope) (addr : positive) (ctx ctx' : AppContext)
  (instance : ASGIApp) :
  create request_class dispatch scope addr ctx = (ctx', Done instance) ->
  decode_headers (default [] (scope_headers scope))
  = Some (headers (request instance)).
Proof.
  intros Hcreate.
  destruct (create_Done _ _ _ _ _ _ _ Hcreate)
    as (hdrs & version & method & ws & Hdec & Hkind & _ & _ & -> & _).
  done.
Qed.

(** X9.  The headers of a created adapter's request.  A scope without
    the ["headers"] entry gives a request without headers.  When the
    names and the values are ASCII, the request holds, pair by pair and
    in the order of the scope, the characters that the bytes stand for. *)
Theorem create_headers_ascii
  {E : Type}
  (request_class :
     bytes -> list (pystr * pystr) -> string -> string -> option exn)
  (dispatch : string -> Request -> option E)
  (scope : ASGIScope) (addr : positive) (ctx ctx' : AppContext)
  (instance : ASGIApp) :
  create request_class dispatch scope addr ctx = (ctx', Done instance) ->
  (scope_headers scope = None -> headers (request instance) = [])
  /\ (forall hs : list (bytes * bytes),
        scope_headers scope = Some hs ->
        Forall (fun kv => is_ascii kv.1 /\ is_ascii kv.2) hs ->
        headers (request instance)
        = map (fun kv => (map Byte.to_N kv.1, map Byte.to_N kv.2)) hs).
Proof.
  intros Hcreate. split.
  - intros Hnone.
    pose proof (create_decoded_headers _ _ _ _ _ _ _ Hcreate) as Hdec.
    rewrite Hnone in Hdec. by injection Hdec as <-.
  - intros hs Hhs Hascii.
    pose proof (create_decoded_headers _ _ _ _ _ _ _ Hcreate) as Hdec.
    rewrite Hhs in Hdec. cbn in Hdec.
    rewrite decode_headers_Some in Hdec
      by (eapply Forall_impl; [exact Hascii|]; by intros kv [Hk _]).
    injection Hdec as <-.
    clear -Hascii. induction Hascii as [|kv hs [Hk Hv] _ IH]; [done|].
    cbn. rewrite IH. unfold decoded_pair.
    by rewrite (decode_surrogateescape_ascii _ Hv).
Qed.

Lemma create_headers_ascii_witness :
  headers (request instance_ascii)
  = map (fun kv => (map Byte.to_N kv.1, map Byte.to_N kv.2))
        [(b "host", b "a"); (b "x", b "")].
Proof.
  apply (proj2 (create_headers_ascii request_class_ok
                  (fun _ _ => @None unit) scope_ascii
                  1%positive ctx_new
                  {| is_started := true; _current := Some (request instance_ascii);
                     dispatched :=
                       [("http.lifecycle.request", request instance_ascii)] |}
                  instance_ascii eq_refl)
           [(b "host", b "a"); (b "x", b "")] eq_refl).
  repeat constructor; cbn; lia.
Defined.

(** ** The codecs, further *)

Lemma to_N_byte_of (n : N) : n < 256 -> Byte.to_N (byte_of n) = n.
Proof.
  intros Hn. unfold byte_of.
  destruct (Byte.of_N n) as [c|] eqn:Hc.
  - by apply Byte.to_of_N.
  - apply Byte.of_N_None_iff in Hc. lia.
Qed.

Ltac bytes_to_N :=
  repeat match goal with
  | |- context [Byte.to_N (byte_of ?e)] => rewrite (to_N_byte_of e) by lia
  end.

Ltac split_equalities :=
  repeat match goal with
  | |- context [?x =? ?y] => destruct (x =? y) eqn:?
  end.

(** One step of the decoder. *)
Lemma decode_surrogateescape_cons (c0 : byte) (r0 : bytes) :
  decode_surrogateescape (c0 :: r0)
  = let n0 := Byte.to_N c0 in
    if n0 <? 128 then n0 :: decode_surrogateescape r0
    else
      match r0 with
      | [] => escape n0 :: decode_surrogateescape r0
      | c1 :: r1 =>
          let n1 := Byte.to_N c1 in
          if valid2 n0 n1 then cp2 n0 n1 :: decode_surrogateescape r1
          else
            match r1 with
            | [] => escape n0 :: decode_surrogateescape r0
            | c2 :: r2 =>
                let n2 := Byte.to_N c2 in
                if valid3 n0 n1 n2
                then cp3 n0 n1 n2 :: decode_surrogateescape r2
                else
                  match r2 with
                  | [] => escape n0 :: decode_surrogateescape r0
                  | c3 :: r3 =>
                      let n3 := Byte.to_N c3 in
                      if valid4 n0 n1 n2 n3
                      then cp4 n0 n1 n2 n3 :: decode_surrogateescape r3
                      else escape n0 :: decode_surrogateescape r0
                  end
            end
      end.
Proof. reflexivity. Qed.

Lemma decode_encode_cp (cp : N) (bs rest : bytes) :
  encode_cp false cp = Some bs ->
  decode_surrogateescape (bs ++ rest) = cp :: decode_surrogateescape rest.
Proof.
  unfold encode_cp.
  destruct (cp <? 128) eqn:H1.
  { intros [= <-]. bool_to_prop.
    change ([?a0] ++ rest) with (a0 :: rest).
    rewrite decode_surrogateescape_cons. cbv zeta.
    bytes_to_N. by decide_tests. }
  destruct (cp <? 2048) eqn:H2.
  { intros [= <-]. bool_to_prop.
    change ([?a0; ?a1] ++ rest) with (a0 :: a1 :: rest).
    rewrite decode_surrogateescape_cons. cbv zeta.
    bytes_to_N. decide_tests.
    unfold valid2, is_cont. decide_tests. cbn [andb].
    unfold cp2. f_equal. lia. }
  destruct ((55296 <=? cp) && (cp <? 57344)) eqn:H3; [done|].
  assert (cp < 55296 \/ 57344 <= cp) as Hs.
  { apply andb_false_iff in H3. destruct H3; bool_to_prop; lia. }
  clear H3.
  destruct (cp <? 65536) eqn:H4.
  { intros [= <-]. bool_to_prop.
    change ([?a0; ?a1; ?a2] ++ rest) with (a0 :: a1 :: a2 :: rest).
    rewrite decode_surrogateescape_cons. cbv zeta.
    bytes_to_N. decide_tests.
    unfold valid2, valid3, is_cont. decide_tests. cbn [andb].
    split_equalities; bool_to_prop; decide_tests; cbn [andb];
      unfold cp3; f_equal; lia. }
  destruct (cp <? 1114112) eqn:H5; [|done].
  intros [= <-]. bool_to_prop.
  change ([?a0; ?a1; ?a2; ?a3] ++ rest) with (a0 :: a1 :: a2 :: a3 :: rest).
  rewrite decode_surrogateescape_cons. cbv zeta.
  bytes_to_N. decide_tests.
  unfold valid2, valid3, valid4, is_cont. decide_tests. cbn [andb].
  split_equalities; bool_to_prop; decide_tests; cbn [andb];
    unfold cp4; f_equal; lia.
Qed.

(** X10.  The two codecs of the adapter agree: the bytes that [send]
    makes of a text ([data.encode()]) decode, the way [create] decodes a
    header value, to the same text. *)
Theorem decode_encoded_text (text : pystr) :
  forall data : bytes,
    encode_payload (Text text) = Done data ->
    decode_surrogateescape data = text.
Proof.
  unfold encode_payload, encode.
  induction text as [|cp text IH]; intros data; cbn.
  - by intros [= <-].
  - destruct (encode_cp false cp) as [b1|] eqn:Hcp; [|done].
    destruct (encode_utf8 false text) as [b2|] eqn:Htext; [|done].
    intros [= <-]. rewrite (decode_encode_cp cp b1 b2 Hcp).
    by rewrite (IH b2).
Qed.

Lemma decode_encoded_text_witness :
  decode_surrogateescape [x68; xc3; xa9; xe2; x82; xac; xf0; x9f; x98; x80]
  = [104; 233; 8364; 128512].
Proof.
  apply (decode_encoded_text [104; 233; 8364; 128512]
           [x68; xc3; xa9; xe2; x82; xac; xf0; x9f; x98; x80] eq_refl).
Defined.

(** ** The request body, further *)

Lemma read_message_more (self : ASGIApp) (m : Message) :
  more_follows m = true -> read_message self m = (self, Some (body_of m)).
Proof. unfold read_message, more_follows, body_of. by intros ->. Qed.

Lemma read_message_last (self : ASGIApp) (m : Message) :
  more_follows m = false ->
  read_message self m
  = (set_request_body false self,
     if truthy (body_of m) then Some (body_of m) else None).
Proof.
  unfold read_message, more_follows, body_of. intros ->. cbn.
  by destruct (truthy _).
Qed.

(** X11.  The iteration stops at the last chunk.  On an adapter that
    expects a body, with messages that announce more and then one that
    does not, the iteration yields the chunks of these messages that are
    not empty, in their order, and ends; it leaves every later message
    in the channel, and the adapter expects no more body. *)
Theorem aiter_all_until_last (before : list Message) :
  forall (self : ASGIApp) (last : Message) (rest : list Message),
    request_body self = true ->
    Forall (fun m => more_follows m = true) before ->
    more_follows last = false ->
    aiter_all self (before ++ last :: rest)
    = (set_request_body false (begin_read self), rest,
       chunks_of (before ++ [last]), Done tt).
Proof.
  induction before as [|m before IH]; intros self last rest Hbody Hmore Hlast.
  - rewrite app_nil_l. cbn [aiter_all].
    rewrite Hbody, (read_message_last _ _ Hlast).
    unfold chunks_of. cbn [map List.filter].
    destruct rest; cbn; by destruct (truthy (body_of last)) eqn:Ht; rewrite ?Ht.
  - apply Forall_cons in Hmore as [Hm Hmore].
    rewrite <- app_comm_cons. cbn [aiter_all].
    rewrite Hbody, (read_message_more _ _ Hm).
    rewrite (IH (begin_read self) last rest)
      by (by rewrite ?request_body_begin_read).
    rewrite begin_read_idem. unfold chunks_of.
    rewrite <- app_comm_cons. cbn [map List.filter].
    by destruct (truthy (body_of m)) eqn:Ht; rewrite ?Ht.
Qed.

Lemma aiter_all_until_last_witness :
  aiter_all instance_dup
    ([message_abc; message_empty] ++ message_def :: [message_late])
  = (set_request_body false (begin_read instance_dup), [message_late],
     chunks_of ([message_abc; message_empty] ++ [message_def]), Done tt).
Proof.
  apply (aiter_all_until_last [message_abc; message_empty] instance_dup
           message_def [message_late] eq_refl).
  - repeat constructor.
  - reflexivity.
Defined.

(** X12.  The iteration waits for the last chunk.  On an adapter that
    expects a body, when every message that arrives announces more, the
    iteration yields their chunks that are not empty, takes all the
    messages, and stays suspended in [receive]. *)
Theorem aiter_all_waits (inbox : list Message) :
  forall self : ASGIApp,
    request_body self = true ->
    Forall (fun m => more_follows m = true) inbox ->
    aiter_all self inbox = (begin_read self, [], chunks_of inbox, Pending).
Proof.
  induction inbox as [|m inbox IH]; intros self Hbody Hmore.
  - cbn. by rewrite Hbody.
  - apply Forall_cons in Hmore as [Hm Hmore].
    cbn [aiter_all]. rewrite Hbody, (read_message_more _ _ Hm).
    rewrite (IH (begin_read self)) by (by rewrite ?request_body_begin_read).
    rewrite begin_read_idem. unfold chunks_of. cbn [map List.filter].
    by destruct (truthy (body_of m)) eqn:Ht; rewrite ?Ht.
Qed.

Lemma aiter_all_waits_witness :
  aiter_all instance_dup [message_abc; message_empty; message_late]
  = (begin_read instance_dup, [],
     chunks_of [message_abc; message_empty; message_late], Pending).
Proof.
  apply (aiter_all_waits [message_abc; message_empty; message_late]
           instance_dup eq_refl).
  repeat constructor.
Defined.

(** X13.  A resumption of the iteration takes no more messages than it
    needs: when it yields a chunk, the message it took last carried this
    chunk, the messages it took before were empty and announced more,
    and every later message is left in the channel. *)
Theorem aiter_next_takes_what_it_yields (inbox : list Message) :
  forall (self self' : ASGIApp) (rest : list Message) (data : bytes),
    aiter_next self inbox = (self', rest, Done (Some data)) ->
    exists (skipped : list Message) (m : Message),
      inbox = skipped ++ m :: rest
      /\ body_of m = data
      /\ Forall (fun m' => body_of m' = [] /\ more_follows m' = true) skipped.
Proof.
  induction inbox as [|m inbox IH]; intros self self' rest data; cbn.
  - by destruct (request_body self).
  - destruct (request_body self); [|done].
    destruct (more_follows m) eqn:Hm.
    + rewrite (read_message_more _ _ Hm).
      destruct (body_of m) as [|c d] eqn:Hb; cbn.
      * intros Hnext. destruct (IH _ _ _ _ Hnext) as (skipped & m' & -> & ? & ?).
        exists (m :: skipped), m'. split; [done|]. split; [done|].
        by constructor.
      * intros [= <- <- <-]. by exists [], m.
    + rewrite (read_message_last _ _ Hm).
      destruct (body_of m) as [|c d] eqn:Hb; cbn.
      * intros Hnext. destruct inbox; cbn in Hnext; done.
      * intros [= <- <- <-]. by exists [], m.
Qed.

Lemma aiter_next_takes_what_it_yields_witness :
  exists (skipped : list Message) (m : Message),
    [message_empty; message_abc; message_def]
    = skipped ++ m :: [message_def]
    /\ body_of m = b "abc"
    /\ Forall (fun m' => body_of m' = [] /\ more_follows m' = true) skipped.
Proof.
  apply (aiter_next_takes_what_it_yields
           [message_empty; message_abc; message_def] instance_dup
           (begin_read instance_dup) [message_def] (b "abc") eq_refl).
Defined.

(** X14.  The loop [async for] is the resumptions one after the other:
    what the whole iteration does is what one resumption does, followed,
    when it has yielded a chunk, by the iteration of what is left. *)
Theorem aiter_all_by_resumptions (inbox : list Message) :
  forall self : ASGIApp,
    aiter_all self inbox
    = match aiter_next self inbox with
      | (self', rest, Done (Some data)) =>
          let '(self'', rest', chunks, r) := aiter_all self' rest in
          (self'', rest', data :: chunks, r)
      | (self', rest, Done None) => (self', rest, [], Done tt)
      | (self', rest, Raise e) => (self', rest, [], Raise e)
      | (self', rest, Pending) => (self', rest, [], Pending)
      end.
Proof.
  induction inbox as [|m inbox IH]; intros self; cbn.
  - by destruct (request_body self).
  - destruct (request_body self); [|done].
    destruct (read_message _ _) as [self1 [[|c d]|]]; cbn.
    + transitivity (aiter_all self1 inbox); [|apply IH].
      by destruct (aiter_all self1 inbox) as [[[? ?] ?] ?].
    + by destruct (aiter_all self1 inbox) as [[[? ?] ?] ?].
    + transitivity (aiter_all self1 inbox); [|apply IH].
      by destruct (aiter_all self1 inbox) as [[[? ?] ?] ?].
Qed.

(** ** The response, further *)

Lemma send_bytes_no_response
  (data : bytes) (end_stream : bool) (self : ASGIApp) (w : World) :
  response self = None ->
  send (Bytes data) end_stream (self, w)
  = ((set_stage (stage_after_send end_stream) self,
      {| streams := streams w;
         outbox := outbox w ++ [body_message (data, end_stream)] |}),
     Done tt).
Proof.
  intros Hresp. unfold send. cbn. by rewrite Hresp.
Qed.

Lemma send_bytes_pending
  (data : bytes) (end_stream : bool) (self : ASGIApp) (w : World)
  (resp : BaseHTTPResponse) :
  response self = Some resp ->
  send (Bytes data) end_stream (self, w)
  = ((set_response None (set_stage (stage_after_send end_stream) self),
      {| streams := streams w;
         outbox :=
           outbox w
           ++ [start_message resp;
               body_message (default [] (body resp) ++ data, end_stream)] |}),
     Done tt).
Proof.
  intros Hresp.
  unfold send, send_body, prepend_body, transport_send, body_message,
    start_message, stage_after_send.
  cbn. rewrite Hresp. cbn.
  destruct (body resp) as [[|c rb]|]; cbn;
    [by rewrite <- app_assoc| |by rewrite <- app_assoc].
  destruct data as [|c' data]; cbn; rewrite <- app_assoc; cbn;
    by rewrite ?app_nil_r.
Qed.

(** X15.  What [send] does with a [bytes] payload, in any stage: it does
    not raise; it sets the stage by [end_stream] alone; without a pending
    response it sends the one body message of the payload; with a
    pending response it detaches the response and sends its start
    message and then one body message, whose payload is the body of the
    response followed by the payload. *)
Theorem send_bytes
  (data : bytes) (end_stream : bool) (self : ASGIApp) (w : World) :
  match response self with
  | None =>
      send (Bytes data) end_stream (self, w)
      = ((set_stage (stage_after_send end_stream) self,
          {| streams := streams w;
             outbox := outbox w ++ [body_message (data, end_stream)] |}),
         Done tt)
  | Some resp =>
      send (Bytes data) end_stream (self, w)
      = ((set_response None (set_stage (stage_after_send end_stream) self),
          {| streams := streams w;
             outbox :=
               outbox w
               ++ [start_message resp;
                   body_message (default [] (body resp) ++ data, end_stream)] |}),
         Done tt)
  end.
Proof.
  destruct (response self) as [resp|] eqn:Hresp.
  - by apply send_bytes_pending.
  - by apply send_bytes_no_response.
Qed.

Lemma last_default_irrelevant {A : Type} (l : list A) :
  forall a d d' : A, List.last (a :: l) d = List.last (a :: l) d'.
Proof.
  induction l as [|a' l IH]; intros a d d'; [done|].
  change (List.last (a' :: l) d = List.last (a' :: l) d'). apply IH.
Qed.

Lemma send_all_no_response (chunks : list (bytes * bool)) :
  forall (self : ASGIApp) (w : World),
    response self = None ->
    exists self' : ASGIApp,
      send_all chunks (self, w)
      = ((self',
          {| streams := streams w;
             outbox := outbox w ++ map body_message chunks |}), Done tt)
      /\ response self' = None
      /\ stage self' = stage_after_chunks (stage self) chunks.
Proof.
  induction chunks as [|[data end_stream] chunks IH]; intros self w Hresp.
  - exists self. cbn. rewrite app_nil_r. by destruct w.
  - cbn [send_all]. unfold bind.
    rewrite (send_bytes_no_response _ _ _ _ Hresp).
    destruct (IH (set_stage (stage_after_send end_stream) self)
                {| streams := streams w;
                   outbox := outbox w ++ [body_message (data, end_stream)] |}
                Hresp) as (self' & -> & Hresp' & Hstage).
    exists self'. cbn. rewrite <- app_assoc. split; [done|]. split; [done|].
    rewrite Hstage. unfold stage_after_chunks. cbn [map].
    clear. destruct chunks as [|chunk chunks']; [reflexivity|].
    cbn [map]. apply last_default_irrelevant.
Qed.

(** X16.  A response streamed in any number of chunks: with a pending
    response, the calls of [send] on [bytes] chunks send the start
    message once, first, and then one body message for each chunk, in
    their order, each with [more_body] the opposite of its [end_stream];
    the body of the response comes before the first chunk.  Afterwards
    no response is pending and the stage is the one of the last chunk. *)
Theorem send_all_streams
  (resp : BaseHTTPResponse) (data : bytes) (end_stream : bool)
  (chunks : list (bytes * bool)) (self : ASGIApp) (w : World) :
  response self = Some resp ->
  exists self' : ASGIApp,
    send_all ((data, end_stream) :: chunks) (self, w)
    = ((self',
        {| streams := streams w;
           outbox :=
             outbox w
             ++ start_message resp
                :: body_message (default [] (body resp) ++ data, end_stream)
                :: map body_message chunks |}), Done tt)
    /\ response self' = None
    /\ stage self' = stage_after_chunks (stage_after_send end_stream) chunks.
Proof.
  intros Hresp. cbn [send_all]. unfold bind.
  rewrite (send_bytes_pending _ _ _ _ _ Hresp).
  destruct (send_all_no_response chunks
              (set_response None (set_stage (stage_after_send end_stream) self))
              {| streams := streams w;
                 outbox :=
                   outbox w
                   ++ [start_message resp;
                       body_message (default [] (body resp) ++ data, end_stream)] |}
              eq_refl) as (self' & -> & Hresp' & Hstage).
  exists self'. cbn. rewrite <- app_assoc. done.
Qed.

Lemma send_all_streams_witness :
  exists self' : ASGIApp,
    send_all [(b "a", false); (b "", false); (b "c", true)]
      (set_response (Some response_200_body) (set_stage HANDLER instance_dup),
       world_new)
    = ((self',
        {| streams := streams world_new;
           outbox :=
             outbox world_new
             ++ start_message response_200_body
                :: body_message
                     (default [] (body response_200_body) ++ b "a", false)
                :: map body_message [(b "", false); (b "c", true)] |}), Done tt)
    /\ response self' = None
    /\ stage self' = stage_after_chunks (stage_after_send false)
                       [(b "", false); (b "c", true)].
Proof.
  apply (send_all_streams response_200_body (b "a") false
           [(b "", false); (b "c", true)]
           (set_response (Some response_200_body)
              (set_stage HANDLER instance_dup))
           world_new eq_refl).
Defined.

(** X17.  [send] raises on a text payload only (a [str] after a body of
    [bytes], or a text that UTF-8 cannot encode).  When it raises, no
    body message has been sent, but the stage is set, the pending
    response is detached and its start message has been sent. *)
Theorem send_raises_half_way
  (data : payload) (end_stream : bool) (self self' : ASGIApp) (w w' : World)
  (e : exn) :
  send data end_stream (self, w) = ((self', w'), Raise e) ->
  (exists text : pystr, data = Text text)
  /\ (e = TypeError \/ e = UnicodeEncodeError)
  /\ stage self' = stage_after_send end_stream
  /\ response self' = None
  /\ streams w' = streams w
  /\ outbox w'
     = outbox w
       ++ match response self with
          | Some resp => [start_message resp]
          | None => []
          end.
Proof.
  destruct data as [d|text].
  - pose proof (send_bytes_no_response d end_stream self w) as Hnone.
    pose proof (send_bytes_pending d end_stream self w) as Hsome.
    destruct (response self) as [resp|].
    + by rewrite (Hsome resp eq_refl).
    + by rewrite (Hnone eq_refl).
  - unfold send, send_body, prepend_body, transport_send, encode_payload,
      start_message, stage_after_send.
    cbn. destruct (response self) as [resp|] eqn:Hresp; cbn.
    + destruct (truthy (default [] (body resp))).
      * destruct (truthy text); cbn.
        -- intros [= <- <- <-]. cbn. eauto 10.
        -- by intros [= <- <- <-].
      * destruct (encode text); cbn; [done|].
        intros [= <- <- <-]. cbn. eauto 10.
    + destruct (encode text); cbn; [done|].
      intros [= <- <- <-]. cbn. rewrite Hresp, app_nil_r. eauto 10.
Qed.

Lemma send_raises_half_way_witness :
  (exists text : pystr, Text [104] = Text text)
  /\ (TypeError = TypeError \/ TypeError = UnicodeEncodeError)
  /\ stage (set_response None
              (set_stage IDLE
                 (set_response (Some response_200_body)
                    (set_stage HANDLER instance_dup))))
     = stage_after_send true
  /\ response (set_response None
                 (set_stage IDLE
                    (set_response (Some response_200_body)
                       (set_stage HANDLER instance_dup))))
     = None
  /\ streams (transport_send (start_message response_200_body) world_new)
     = streams world_new
  /\ outbox (transport_send (start_message response_200_body) world_new)
     = outbox world_new
       ++ match response (set_response (Some response_200_body)
                            (set_stage HANDLER instance_dup)) with
          | Some resp => [start_message resp]
          | None => []
          end.
Proof.
  apply (send_raises_half_way (Text [104]) true
           (set_response (Some response_200_body)
              (set_stage HANDLER instance_dup))
           _ world_new _ TypeError eq_refl).
Defined.

Lemma respond_in_handler (new : BaseHTTPResponse) (self : ASGIApp) (w : World) :
  stage self = HANDLER ->
  respond new (self, w)
  = ((set_response (Some new) self,
      set_streams
        (<[response_id new := self_id self]>
           (match response self with
            | Some old => delete (response_id old) (streams w)
            | None => streams w
            end)) w),
     Done new).
Proof.
  intros Hstage. unfold respond. rewrite Hstage. cbn.
  by destruct (response self).
Qed.

(** X18.  The last response wins.  In the stage HANDLER, after two calls
    of [respond] and one of [send] on [bytes], the start message is the
    one of the second response and the body message starts with the
    body of the second response: nothing of the first response is sent.
    The second response is linked to the adapter and, unless it is the
    same object, the first response is not. *)
Theorem last_response_is_sent
  (first second : BaseHTTPResponse) (data : bytes) (end_stream : bool)
  (self : ASGIApp) (w : World) :
  stage self = HANDLER ->
  exists (self' : ASGIApp) (w' : World),
    respond_twice_and_send first second data end_stream (self, w)
    = ((self', w'), Done tt)
    /\ outbox w'
       = outbox w
         ++ [start_message second;
             body_message (default [] (body second) ++ data, end_stream)]
    /\ response self' = None
    /\ stage self' = stage_after_send end_stream
    /\ streams w' !! response_id second = Some (self_id self)
    /\ (response_id first <> response_id second ->
        streams w' !! response_id first = None).
Proof.
  intros Hstage. unfold respond_twice_and_send, bind.
  rewrite (respond_in_handler first self w Hstage).
  rewrite respond_in_handler by done.
  rewrite (send_bytes_pending _ _ _ _ second) by done.
  eexists _, _. split; [reflexivity|]. cbn.
  split; [done|]. split; [done|]. split; [done|]. split.
  - apply lookup_insert_eq.
  - intros Hne. rewrite lookup_insert_ne by done. apply lookup_delete_eq.
Qed.

Lemma last_response_is_sent_witness :
  exists (self' : ASGIApp) (w' : World),
    respond_twice_and_send response_200_body response_other (b "x") true
      (set_stage HANDLER instance_dup, world_new)
    = ((self', w'), Done tt)
    /\ outbox w'
       = outbox world_new
         ++ [start_message response_other;
             body_message (default [] (body response_other) ++ b "x", true)]
    /\ response self' = None
    /\ stage self' = stage_after_send true
    /\ streams w' !! response_id response_other
       = Some (self_id (set_stage HANDLER instance_dup))
    /\ (response_id response_200_body <> response_id response_other ->
        streams w' !! response_id response_200_body = None).
Proof.
  apply (last_response_is_sent response_200_body response_other (b "x") true
           (set_stage HANDLER instance_dup) world_new eq_refl).
Defined.

Lemma response_begin_read (self : ASGIApp) :
  response (begin_read self) = response self
  /\ self_id (begin_read self) = self_id self.
Proof. unfold begin_read. by case_decide. Qed.

Lemma response_read_message (self : ASGIApp) (m : Message) :
  response (read_message self m).1 = response self
  /\ self_id (read_message self m).1 = self_id self.
Proof.
  unfold read_message. destruct (negb _); [destruct (negb _)|]; done.
Qed.

Lemma response_aiter_next (inbox : list Message) :
  forall self : ASGIApp,
    response (aiter_next self inbox).1.1 = response self
    /\ self_id (aiter_next self inbox).1.1 = self_id self.
Proof.
  induction inbox as [|m inbox IH]; intros self; cbn.
  - destruct (request_body self); [apply response_begin_read|done].
  - destruct (request_body self); [|done].
    pose proof (response_read_message (begin_read self) m) as [Hr Hi].
    pose proof (response_begin_read self) as [Hr' Hi'].
    destruct (read_message _ _) as [self1 d]. cbn in Hr, Hi.
    destruct (data_truthy d); cbn.
    + split; congruence.
    + destruct (IH self1) as [-> ->]. split; congruence.
Qed.

Lemma pending_linked_operation (o : Operation) (c : Conn) :
  pending_linked c ->
  pending_linked (run_operation o c)
  /\ self_id (app (run_operation o c)) = self_id (app c).
Proof.
  intros Hlinked. destruct o as [| |new|data end_stream|];
    unfold run_operation, pending_linked.
  - unfold read.
    pose proof (response_begin_read (app c)) as [Hr Hi].
    destruct (inbox c) as [|m inbox']; cbn.
    + rewrite Hr, Hi. done.
    + pose proof (response_read_message (begin_read (app c)) m) as [Hr' Hi'].
      destruct (read_message _ _) as [self d]. cbn in *.
      rewrite Hr', Hi', Hr, Hi. done.
  - pose proof (response_aiter_next (inbox c) (app c)) as [Hr Hi].
    destruct (aiter_next _ _) as [[self inbox'] r]. cbn in *.
    rewrite Hr, Hi. done.
  - unfold respond. destruct (bool_decide (stage (app c) = HANDLER)); cbn.
    + split; [|done]. intros r [= <-].
      destruct (response (app c)); cbn; apply lookup_insert_eq.
    + done.
  - assert (Hsend : response (send data end_stream (app c, world c)).1.1 = None
                    /\ self_id (send data end_stream (app c, world c)).1.1
                       = self_id (app c)).
    { unfold send, send_body, prepend_body. cbn.
      destruct (response (app c)) as [resp|] eqn:Hresp; cbn.
      - destruct (truthy (default [] (body resp))).
        + destruct (payload_truthy data), data as [d|d]; cbn; try done;
            destruct (encode_payload _); done.
        + destruct (encode_payload data); done.
      - destruct (encode_payload data); cbn; by rewrite ?Hresp. }
    destruct (send _ _ _) as [[self w] r]. cbn in *.
    destruct Hsend as [-> ->]. done.
  - done.
Qed.

(** X19.  Whatever operations run on an adapter, a response that is
    pending is linked to the adapter (its [stream] is the adapter), and
    the adapter stays the same object. *)
Theorem pending_response_is_linked (ops : list Operation) :
  forall c : Conn,
    pending_linked c ->
    pending_linked (run_operations ops c)
    /\ self_id (app (run_operations ops c)) = self_id (app c).
Proof.
  induction ops as [|o ops IH]; intros c Hlinked; [done|].
  destruct (pending_linked_operation o c Hlinked) as [Hnext Hid].
  destruct (IH _ Hnext) as [Hall Hid'].
  change (run_operations (o :: ops) c)
    with (run_operations ops (run_operation o c)).
  split; [done|]. congruence.
Qed.

Lemma pending_response_is_linked_witness :
  pending_linked
    (run_operations
       [op_call; op_respond response_200; op_read; op_respond response_other;
        op_send (Bytes (b "x")) false; op_respond response_200] conn_new)
  /\ self_id
       (app (run_operations
               [op_call; op_respond response_200; op_read;
                op_respond response_other; op_send (Bytes (b "x")) false;
                op_respond response_200] conn_new))
     = self_id (app conn_new).
Proof.
  apply (pending_response_is_linked
           [op_call; op_respond response_200; op_read;
            op_respond response_other; op_send (Bytes (b "x")) false;
            op_respond response_200] conn_new).
  intros r Hr. discriminate Hr.
Defined.

(** ** The top-level invocation, further *)

(** X20.  [__call__] calls [handle_request] first, with the request of
    the adapter and in the stage HANDLER, then [handle_exception] at most
    twice, and nothing else.  When [handle_request] does not raise,
    [handle_exception] is not called and [__call__] ends as
    [handle_request] ended. *)
Theorem call_invocations
  {E X : Type} (handle_request : Request -> coro (Conn * X) E unit)
  (handle_exception : Request -> E -> option bool -> coro (Conn * X) E unit)
  (c : Conn) (x : X) :
  (exists tail : list (Invocation E),
     (ASGIApp_call handle_request handle_exception c x).1.2
     = handle_request_called (request (app c)) :: tail
     /\ (length tail <= 2)%nat
     /\ Forall (fun i => exists req e third,
                           i = handle_exception_called req e third) tail)
  /\ stage (app (enter_handler c)) = HANDLER
  /\ (forall (s1 : Conn * X) (r : outcome E unit),
        handle_request (request (app c)) (enter_handler c, x) = (s1, r) ->
        (forall e, r <> Raise e) ->
        ASGIApp_call handle_request handle_exception c x
        = (s1, [handle_request_called (request (app c))], r)).
Proof.
  unfold ASGIApp_call.
  change (request (app (enter_handler c))) with (request (app c)).
  split; [|split; [done|]].
  - destruct (handle_request _ _) as [[c1 x1] [[]|e|]]; cbn.
    + exists []. split; [done|]. split; [cbn; lia|constructor].
    + destruct (handle_exception _ e None _) as [[c2 x2] [[]|exc|]]; cbn.
      * eexists [_]. split; [done|]. split; [cbn; lia|].
        repeat constructor. eauto.
      * destruct (handle_exception _ exc _ _) as [s3 r]. cbn.
        eexists [_; _]. split; [done|]. split; [cbn; lia|].
        repeat constructor; eauto.
      * eexists [_]. split; [done|]. split; [cbn; lia|].
        repeat constructor. eauto.
    + exists []. split; [done|]. split; [cbn; lia|constructor].
  - intros [c1 x1] r Hrequest Hr. rewrite Hrequest.
    destruct r as [[]|e|]; [done| |done]. by destruct (Hr e).
Qed.

Lemma call_invocations_witness :
  ASGIApp_call (fun _ s => (s, @Done string unit tt)) handle_exception_boom
    conn_new tt
  = ((enter_handler conn_new, tt), [handle_request_called request_dup],
     Done tt).
Proof.
  apply (proj2 (proj2 (call_invocations (fun _ s => (s, @Done string unit tt))
                         handle_exception_boom conn_new tt))
           (enter_handler conn_new, tt) (Done tt) eq_refl).
  intros e He. discriminate He.
Defined.

(** X21.  A handler that calls [respond] and then [send] with a last
    chunk of [bytes]: [__call__] returns without calling
    [handle_exception]; the start message of the response and one body
    message (the body of the response, then the chunk, no more to
    follow) have been sent; the stage is IDLE, no response is pending,
    and no message of the request body has been taken. *)
Theorem call_respond_send
  {X : Type} (resp : BaseHTTPResponse) (data : bytes)
  (handle_exception : Request -> exn -> option bool -> coro (Conn * X) exn unit)
  (c : Conn) (x : X) :
  exists c' : Conn,
    ASGIApp_call (handler_respond_send resp data) handle_exception c x
    = ((c', x), [handle_request_called (request (app c))], Done tt)
    /\ outbox (world c')
       = outbox (world c)
         ++ [start_message resp;
             body_message (default [] (body resp) ++ data, true)]
    /\ stage (app c') = IDLE
    /\ response (app c') = None
    /\ streams (world c') !! response_id resp = Some (self_id (app c))
    /\ inbox c' = inbox c.
Proof.
  unfold ASGIApp_call, handler_respond_send, bind, on_conn.
  cbn [enter_handler app world inbox].
  rewrite respond_in_handler by done.
  rewrite (send_bytes_pending _ _ _ _ resp) by done.
  eexists. split; [reflexivity|]. cbn.
  split; [done|]. split; [done|]. split; [done|]. split; [|done].
  apply lookup_insert_eq.
Qed.

(** X22.  A handler that has started to stream a response and calls
    [respond] again: this call raises [RuntimeError("Response already
    started")], which ends the handler (its last [send] is not run), and
    [__call__] hands the exception to [handle_exception]; by then the
    stage is FAILED and just the start message and the first body
    message of the first response have been sent. *)
Theorem call_respond_again
  {X : Type} (first second : BaseHTTPResponse) (data : bytes)
  (handle_exception : Request -> exn -> option bool -> coro (Conn * X) exn unit)
  (c : Conn) (x : X) :
  exists (c1 : Conn) (tail : list (Invocation exn)),
    handler_respond_again first second data (request (app c))
      (enter_handler c, x)
    = ((c1, x), Raise (RuntimeError "Response already started"))
    /\ stage (app c1) = FAILED
    /\ outbox (world c1)
       = outbox (world c)
         ++ [start_message first;
             body_message (default [] (body first) ++ data, false)]
    /\ (ASGIApp_call (handler_respond_again first second data)
          handle_exception c x).1.2
       = handle_request_called (request (app c))
         :: handle_exception_called (request (app c1))
              (RuntimeError "Response already started") None
         :: tail.
Proof.
  unfold ASGIApp_call.
  change (request (app (enter_handler c))) with (request (app c)).
  assert (Hhandler :
    handler_respond_again (X := X) first second data (request (app c))
      (enter_handler c, x)
    = (({| app := set_stage FAILED
                    (set_response None
                       (set_stage RESPONSE
                          (set_response (Some first)
                             (set_stage HANDLER (app c)))));
           world :=
             {| streams :=
                  <[response_id first := self_id (app c)]>
                    (match response (app c) with
                     | Some old => delete (response_id old) (streams (world c))
                     | None => streams (world c)
                     end);
                outbox :=
                  outbox (world c)
                  ++ [start_message first;
                      body_message (default [] (body first) ++ data, false)] |};
           inbox := inbox c |}, x),
       Raise (RuntimeError "Response already started"))).
  { unfold handler_respond_again, bind, on_conn.
    cbn [enter_handler app world inbox].
    rewrite respond_in_handler by done.
    rewrite (send_bytes_pending _ _ _ _ first) by done.
    reflexivity. }
  rewrite Hhandler.
  destruct (handle_exception _ _ None _) as [[c2 x2] [[]|exc|]] eqn:Hexc.
  - eexists _, _. split; [reflexivity|]. cbn. repeat split; reflexivity.
  - destruct (handle_exception _ exc _ _) as [s3 r].
    eexists _, _. split; [reflexivity|]. cbn. repeat split; reflexivity.
  - eexists _, _. split; [reflexivity|]. cbn. repeat split; reflexivity.
Qed.

(** X23.  An adapter that [create] has just returned refuses a response:
    [respond] sets the stage to FAILED and raises [RuntimeError("Response
    already started")].  Once [__call__] has set the stage to HANDLER,
    [respond] on the same adapter accepts the response and links it to
    the address that [create] gave the adapter. *)
Theorem respond_needs_call
  {E : Type}
  (request_class :
     bytes -> list (pystr * pystr) -> string -> string -> option exn)
  (dispatch : string -> Request -> option E)
  (scope : ASGIScope) (addr : positive) (ctx ctx' : AppContext)
  (instance : ASGIApp) (new : BaseHTTPResponse) (w : World)
  (messages : list Message) :
  create request_class dispatch scope addr ctx = (ctx', Done instance) ->
  respond new (instance, w)
  = ((set_stage FAILED instance, w),
     Raise (RuntimeError "Response already started"))
  /\ exists w' : World,
       respond new
         (app (enter_handler {| app := instance; world := w;
                                inbox := messages |}), w)
       = ((set_response (Some new) (set_stage HANDLER instance), w'), Done new)
       /\ streams w' !! response_id new = Some addr
       /\ outbox w' = outbox w.
Proof.
  intros Hcreate.
  destruct (create_fresh _ _ _ _ _ _ _ Hcreate) as (Hstage & _ & Hresp & Hid).
  split.
  - unfold respond. by rewrite Hstage.
  - cbn [enter_handler app]. rewrite respond_in_handler by done.
    eexists. split; [reflexivity|]. cbn. rewrite Hid. split; [|done].
    apply lookup_insert_eq.
Qed.

Lemma respond_needs_call_witness :
  respond response_200 (instance_dup, world_new)
  = ((set_stage FAILED instance_dup, world_new),
     Raise (RuntimeError "Response already started"))
  /\ exists w' : World,
       respond response_200
         (app (enter_handler {| app := instance_dup; world := world_new;
                                inbox := [] |}), world_new)
       = ((set_response (Some response_200) (set_stage HANDLER instance_dup),
           w'), Done response_200)
       /\ streams w' !! response_id response_200 = Some 1%positive
       /\ outbox w' = outbox world_new.
Proof.
  apply (respond_needs_call request_class_ok (fun _ _ => @None unit) scope_dup 1%positive
           ctx_new
           {| is_started := true; _current := Some request_dup;
              dispatched := [("http.lifecycle.request", request_dup)] |}
           instance_dup response_200 world_new [] eq_refl).
Defined.
